(** * Linker: a URL shortener backed by a MySQL table (linker.go)

    A shallow embedding of the request handler [serve], the name validator
    [isNameValid], the administrative calls [Add] and [Delete] and the
    teardown [Close] of package linker, with the properties its
    specification states about them.

    Go strings are byte sequences: they are modelled by [string], whose
    characters are the bytes.  Everything that the package obtains from
    outside (the SQL driver, net/url, net/http) is either an explicit
    environment the functions are run against or a logged effect. *)

From Stdlib Require Import ZArith List Bool Lia Ascii String Zbitwise.
From Equations Require Import Equations.
Import ListNotations.

Local Open Scope list_scope.
Local Open Scope string_scope.

(** ** Strings as Go sees them *)

Module GoString.

(** The numeric value of a byte of a string. *)
Definition byte_val (c : ascii) : Z := Z.of_N (N_of_ascii c).

(** The slices [s\[i:\]], [s\[:j\]] and [s\[i:j\]] within the bounds
    [i <= j <= len(s)]; outside them Go panics.  [serve] slices at the
    indices the path matcher returns, which are within the bounds (see
    [FindStringIndex_bounds]). *)
Fixpoint drop (i : nat) (s : string) : string :=
  match i, s with
  | O, _ => s
  | S _, EmptyString => EmptyString
  | S j, String _ t => drop j t
  end.

Fixpoint take (j : nat) (s : string) : string :=
  match j, s with
  | O, _ => EmptyString
  | S _, EmptyString => EmptyString
  | S k, String c t => String c (take k t)
  end.

Definition slice (i j : nat) (s : string) : string := take (j - i) (drop i s).

(** The double quote, and the one-byte strings of a double quote and of a
    line feed. *)
Definition dquote : ascii := ascii_of_nat 34.
Definition quote : string := String dquote EmptyString.
Definition newline : string := String (ascii_of_nat 10) EmptyString.

Fixpoint all_bytes (p : ascii -> bool) (s : string) : bool :=
  match s with
  | EmptyString => true
  | String c t => p c && all_bytes p t
  end.

Fixpoint has_byte (p : ascii -> bool) (s : string) : bool :=
  match s with
  | EmptyString => false
  | String c t => p c || has_byte p t
  end.

End GoString.

(** ** UTF-8 decoding, as [for _, v := range s] performs it

    The loop of [isNameValid] ranges over the runes of its argument.  Go
    decodes them as unicode/utf8.DecodeRuneInString does: an ill-formed
    sequence yields the replacement rune U+FFFD and consumes one byte. *)

Module Utf8.
Import GoString.

Definition rune := Z.

Definition RuneError : rune := 65533%Z.   (* U+FFFD *)

Definition maskx : Z := 63%Z.   (* 0b00111111 *)
Definition mask2 : Z := 31%Z.   (* 0b00011111 *)
Definition mask3 : Z := 15%Z.   (* 0b00001111 *)
Definition mask4 : Z := 7%Z.    (* 0b00000111 *)
Definition locb : Z := 128%Z.   (* 0b10000000 *)
Definition hicb : Z := 191%Z.   (* 0b10111111 *)

(** What the table [first] of package utf8 records about a leading byte:
    an ASCII byte, an invalid one, or the size of the sequence it starts
    with the range accepted for the second byte. *)
Inductive first_info :=
| AsciiByte
| InvalidByte
| LeadByte (size : nat) (lo hi : Z).

Definition first (b : Z) : first_info :=
  if (b <? 128)%Z then AsciiByte                    (* 0x00-0x7F *)
  else if (b <? 194)%Z then InvalidByte             (* 0x80-0xC1 *)
  else if (b <? 224)%Z then LeadByte 2 locb hicb    (* 0xC2-0xDF *)
  else if (b =? 224)%Z then LeadByte 3 160%Z hicb   (* 0xE0 *)
  else if (b <? 237)%Z then LeadByte 3 locb hicb    (* 0xE1-0xEC *)
  else if (b =? 237)%Z then LeadByte 3 locb 159%Z   (* 0xED *)
  else if (b <? 240)%Z then LeadByte 3 locb hicb    (* 0xEE-0xEF *)
  else if (b =? 240)%Z then LeadByte 4 144%Z hicb   (* 0xF0 *)
  else if (b <? 244)%Z then LeadByte 4 locb hicb    (* 0xF1-0xF3 *)
  else if (b =? 244)%Z then LeadByte 4 locb 143%Z   (* 0xF4 *)
  else InvalidByte.                                 (* 0xF5-0xFF *)

Definition out_of (lo hi b : Z) : bool := (b <? lo)%Z || (hi <? b)%Z.

(** The first rune of [s] and its width in bytes. *)
Definition DecodeRuneInString (s : string) : rune * nat :=
  match s with
  | EmptyString => (RuneError, 0)
  | String c0 t =>
    let s0 := byte_val c0 in
    match first s0 with
    | AsciiByte => (s0, 1)
    | InvalidByte => (RuneError, 1)
    | LeadByte sz lo hi =>
      if (String.length s <? sz)%nat then (RuneError, 1) else
      match t with
      | EmptyString => (RuneError, 1)
      | String c1 t1 =>
        let s1 := byte_val c1 in
        if out_of lo hi s1 then (RuneError, 1)
        else if (sz <=? 2)%nat then
          (Z.lor (Z.shiftl (Z.land s0 mask2) 6) (Z.land s1 maskx), 2)
        else
        match t1 with
        | EmptyString => (RuneError, 1)
        | String c2 t2 =>
          let s2 := byte_val c2 in
          if out_of locb hicb s2 then (RuneError, 1)
          else if (sz <=? 3)%nat then
            (Z.lor (Z.lor (Z.shiftl (Z.land s0 mask3) 12)
                          (Z.shiftl (Z.land s1 maskx) 6))
                   (Z.land s2 maskx), 3)
          else
          match t2 with
          | EmptyString => (RuneError, 1)
          | String c3 _ =>
            let s3 := byte_val c3 in
            if out_of locb hicb s3 then (RuneError, 1)
            else
              (Z.lor (Z.lor (Z.lor (Z.shiftl (Z.land s0 mask4) 18)
                                   (Z.shiftl (Z.land s1 maskx) 12))
                            (Z.shiftl (Z.land s2 maskx) 6))
                     (Z.land s3 maskx), 4)
          end
        end
      end
    end
  end.

(** The runes a range loop over [s] visits, in order.  [skip] counts the
    bytes still to pass over because they belong to the rune decoded last. *)
Fixpoint range_from (skip : nat) (s : string) : list rune :=
  match s with
  | EmptyString => []
  | String _ t =>
    match skip with
    | S k => range_from k t
    | O => let (r, w) := DecodeRuneInString s in r :: range_from (w - 1) t
    end
  end.

Definition range_string (s : string) : list rune := range_from 0 s.

(** A byte outside ASCII: it is no rune of its own. *)
Definition continuation (c : ascii) : bool := (128 <=? byte_val c)%Z.

End Utf8.

(** ** The name validator *)

Module Names.
Import GoString Utf8.

(** The characters of the [case] list of [isNameValid], in its order. *)
Definition blacklist : list rune :=
  map byte_val (list_ascii_of_string ":;<=>?@[]\^_`{|}~").

Definition blacklisted (v : rune) : bool := existsb (Z.eqb v) blacklist.

(** The body of the loop of [isNameValid], run over the runes of the name. *)
Fixpoint isNameValid_loop (rs : list rune) : bool :=
  match rs with
  | [] => true
  | v :: rest =>
    if (v <? 48)%Z || (v >? 123)%Z then false
    else if blacklisted v then false
    else isNameValid_loop rest
  end.

Definition isNameValid (s : string) : bool := isNameValid_loop (range_string s).

(** The two tests of the loop body together: out of the band, or on the
    blacklist. *)
Definition rejected (v : rune) : bool :=
  (v <? 48)%Z || (v >? 123)%Z || blacklisted v.

(** The control characters (Unicode category Cc): U+0000-U+001F and
    U+007F-U+009F. *)
Definition control (v : rune) : Prop := (0 <= v < 32 \/ 127 <= v <= 159)%Z.

(** The character class [a-zA-Z0-9] of [regCheckURL], on runes and on bytes. *)
Definition alnum_rune (v : rune) : bool :=
  ((97 <=? v) && (v <=? 122) || (65 <=? v) && (v <=? 90) || (48 <=? v) && (v <=? 57))%Z.

Definition alnum (c : ascii) : bool := alnum_rune (byte_val c).

End Names.

(** ** html.EscapeString *)

Module Html.
Import GoString.

(** The replacement of one byte by [htmlEscaper]. *)
Definition escape_byte (c : ascii) : string :=
  if Ascii.eqb c "&" then "&amp;"
  else if Ascii.eqb c "'" then "&#39;"
  else if Ascii.eqb c "<" then "&lt;"
  else if Ascii.eqb c ">" then "&gt;"
  else if Ascii.eqb c dquote then "&#34;"
  else String c EmptyString.

Fixpoint EscapeString (s : string) : string :=
  match s with
  | EmptyString => EmptyString
  | String c t => escape_byte c ++ EscapeString t
  end.


End Html.

(** ** The path matcher: [regCheckURL = (^\/[a-zA-Z0-9]+)] *)

Module PathMatcher.
Import GoString Names.

(** The length of the longest prefix of [s] in the class [a-zA-Z0-9]: what
    the greedy [+] consumes.  The members of the class are one byte each. *)
Fixpoint alnum_run (s : string) : nat :=
  match s with
  | EmptyString => 0
  | String c t => if alnum c then S (alnum_run t) else 0
  end.

(** [regCheckURL.FindStringIndex(s)]: the [^] lets the pattern match at
    index 0 only, a slash must stand there, and at least one member of the
    class must follow.  [None] is the nil slice. *)
Definition FindStringIndex (s : string) : option (nat * nat) :=
  match s with
  | EmptyString => None
  | String c t =>
    if Ascii.eqb c "/" then
      match alnum_run t with
      | O => None
      | S k => Some (0, 1 + S k)
      end
    else None
  end.

(** The policy of [serve] on the result: a match that starts at index 0 and
    spans more than one byte yields a candidate name. *)
Definition candidate (s : string) : bool :=
  match FindStringIndex s with
  | Some (p0, p1) => (p0 =? 0)%nat && negb (p1 <=? 1)%nat
  | None => false
  end.

End PathMatcher.

(** ** Errors *)

Module Errors.

#[warnings="-register-all"]
Inductive error :=
| ErrInvalidName
| ErrNotConfigured
| ErrNoRows                                  (* sql.ErrNoRows *)
| LibraryError (msg : string)                (* any other error of a library *)
| errorValue (s : string) (e : option error).

Definition Error (e : error) : string :=
  match e with
  | ErrInvalidName => "name contains invalid characters"
  | ErrNotConfigured => "database is not loaded or configured"
  | ErrNoRows => "sql: no rows in result set"
  | LibraryError msg => msg
  | errorValue s _ => s
  end.

(** [nil] is [None]. *)
Definition newError (s : string) (e : option error) : error :=
  match e with
  | Some e' => errorValue (s ++ ": " ++ Error e') (Some e')
  | None => errorValue s None
  end.

End Errors.

(** ** The Linker struct *)

Module Core.

(** What the pointers of the struct refer to lives outside the package;
    the struct records only whether each one is set. *)
Variant DB := sqlDB.
Variant Stmt := sqlStmt.
Variant Context := cancelCtx.

Record Linker := {
  db : option DB;
  ctx : option Context;
  get : option Stmt;
  url : string;
  key : string;
  cert : string
}.

Definition defaultURL : string := "https://duckduckgo.com".

End Core.

(** ** The request handler *)

Module Serve.
Import GoString Html PathMatcher Errors Core.

Definition StatusTemporaryRedirect : nat := 307.
Definition StatusInternalServerError : nat := 500.

(** What [l.get.QueryRowContext(l.ctx, x).Scan(&n)] yields for a key. *)
Inductive ScanResult :=
| Scanned (n : string)
| ScanFailed (err : error).

(** What a run of the handler does to the outside, in order. *)
Inductive effect :=
| QueryRow (x : string)                     (* the lookup statement is run *)
| HttpRedirect (target : string) (code : nat)
| WriteHeader (code : nat)
| WriteBody (body : string)
| StderrWrite (text : string).

(** The text of the runtime panic on a nil statement. *)
Definition nilDereference : string :=
  "runtime error: invalid memory address or nil pointer dereference".

(** [serve], run against the result [scan] of the lookup statement.  With
    [l.get] unset the lookup panics and the deferred function reports it. *)
Definition serve (scan : string -> ScanResult) (l : Linker) (RequestURI : string)
  : list effect :=
  if (String.length RequestURI <=? 1)%nat then
    [HttpRedirect (url l) StatusTemporaryRedirect]
  else
    let s := EscapeString RequestURI in
    match FindStringIndex s with
    | None => [HttpRedirect (url l) StatusTemporaryRedirect]
    | Some (p0, p1) =>
      if negb (p0 =? 0)%nat || (p1 <=? 1)%nat then
        [HttpRedirect (url l) StatusTemporaryRedirect]
      else
        let x := slice 1 p1 s in
        match get l with
        | None =>
          [StderrWrite "http function recovered from a panic: ";
           StderrWrite (nilDereference ++ newline)]
        | Some _ =>
          QueryRow x ::
          match scan x with
          | ScanFailed ErrNoRows =>
            [HttpRedirect (url l) StatusTemporaryRedirect]
          | ScanFailed err =>
            [WriteHeader StatusInternalServerError;
             WriteBody ("Could not fetch requested URL " ++ quote ++ x ++ quote);
             StderrWrite ("http function received an error: " ++ Error err
                          ++ "!" ++ newline)]
          | Scanned n =>
            if (String.length n =? 0)%nat then
              [HttpRedirect (url l) StatusTemporaryRedirect]
            else
              let n := if (p1 <? String.length s)%nat then n ++ drop p1 s else n in
              [HttpRedirect n StatusTemporaryRedirect]
          end
        end
    end.

End Serve.

(** ** The administrative calls *)

Module Admin.
Import GoString Names Errors Core.

Definition sqlAdd : string := "INSERT INTO Links(LinkName, LinkURL) VALUES(?, ?)".
Definition sqlDelete : string := "DELETE FROM Links WHERE LinkName = ?".

(** The fields of url.URL. *)
Record URL := {
  Scheme : string;
  Opaque : string;
  User : option string;
  Host : string;
  Path : string;
  RawPath : string;
  ForceQuery : bool;
  RawQuery : string;
  Fragment : string
}.

(** [u.IsAbs()]: the scheme is not empty. *)
Definition IsAbs (u : URL) : bool := negb (String.eqb (Scheme u) EmptyString).

(** [u.Scheme = s]. *)
Definition setScheme (u : URL) (s : string) : URL :=
  {| Scheme := s; Opaque := Opaque u; User := User u; Host := Host u;
     Path := Path u; RawPath := RawPath u; ForceQuery := ForceQuery u;
     RawQuery := RawQuery u; Fragment := Fragment u |}.

(** The functions of packages strings and net/url that [Add] calls. *)
Record Library := {
  TrimSpace : string -> string;
  Parse : string -> URL + error;
  URLString : URL -> string
}.

(** How the database answers: the error, if any, of preparing a query, of
    executing it with its arguments, and of reading the affected rows. *)
Record Driver := {
  prepare : string -> option error;
  exec : string -> list string -> option error;
  rowsAffected : string -> list string -> option error
}.

(** The calls made on the database, in order. *)
Inductive dbcall :=
| Prepare (query : string)
| Exec (query : string) (args : list string)
| RowsAffected
| CloseStmt.

(** The part [Add] and [Delete] share: execute the prepared statement, read
    the affected rows when that succeeded, close the statement, and wrap the
    error met on the way, if any, under [what]. *)
Definition run_prepared (drv : Driver) (query : string) (args : list string)
  (what : string) : option error * list dbcall :=
  let r := exec drv query args in
  let err := match r with
             | None => rowsAffected drv query args
             | Some e => Some e
             end in
  let calls := ((Exec query args ::
                 match r with None => [RowsAffected] | Some _ => [] end)
                ++ [CloseStmt])%list in
  match err with
  | Some e => (Some (newError what (Some e)), calls)
  | None => (None, calls)
  end.

(** [p] with the scheme defaulted as [Add] does. *)
Definition with_scheme (p : URL) : URL :=
  if negb (IsAbs p) then setScheme p "https" else p.

Definition Add (lib : Library) (drv : Driver) (l : Linker) (n u : string)
  : option error * list dbcall :=
  match db l with
  | None => (Some ErrNotConfigured, [])
  | Some _ =>
    if negb (isNameValid n) then (Some ErrInvalidName, [])
    else
      match Parse lib (TrimSpace lib u) with
      | inr err =>
        (Some (newError ("invalid URL " ++ quote ++ u ++ quote) (Some err)), [])
      | inl p =>
        let p := with_scheme p in
        match prepare drv sqlAdd with
        | Some err =>
          (Some (newError "unable to prepare add statement" (Some err)),
           [Prepare sqlAdd])
        | None =>
          let (err, calls) :=
            run_prepared drv sqlAdd [n; URLString lib p]
                         "unable to execute add statement" in
          (err, Prepare sqlAdd :: calls)
        end
      end
  end.

Definition Delete (drv : Driver) (l : Linker) (n : string)
  : option error * list dbcall :=
  match db l with
  | None => (Some ErrNotConfigured, [])
  | Some _ =>
    if negb (isNameValid n) then (Some ErrInvalidName, [])
    else
      match prepare drv sqlDelete with
      | Some err =>
        (Some (newError "unable to prepare delete statement" (Some err)),
         [Prepare sqlDelete])
      | None =>
        let (err, calls) :=
          run_prepared drv sqlDelete [n] "unable to execute delete statement" in
        (err, Prepare sqlDelete :: calls)
      end
  end.

(** The statements that changed the table: the executions among the calls. *)
Fixpoint executed (calls : list dbcall) : list (string * list string) :=
  match calls with
  | [] => []
  | Exec q args :: rest => (q, args) :: executed rest
  | _ :: rest => executed rest
  end.

End Admin.

(** ** Teardown *)

Module Lifecycle.
Import Errors Core.

(** The calls [Close] makes on what the Linker owns. *)
Inductive call :=
| StmtClose       (* l.get.Close() *)
| DBClose         (* l.db.Close() *)
| Cancel          (* l.cancel() *)
| Shutdown        (* l.Server.Shutdown(l.ctx) *)
| ServerClose.    (* l.Server.Close() *)

Definition call_eqb (a b : call) : bool :=
  match a, b with
  | StmtClose, StmtClose | DBClose, DBClose | Cancel, Cancel
  | Shutdown, Shutdown | ServerClose, ServerClose => true
  | _, _ => false
  end.

Definition call_eq_dec (a b : call) : {a = b} + {a <> b}.
Proof. decide equality. Defined.

(** The state outside the struct: the calls made so far, oldest first, and
    whether the context is done. *)
Record World := {
  history : list call;
  done : bool
}.

(** What a call returns, given the calls made before it. *)
Definition Outcomes := call -> list call -> option error.

(** Computations that read and change the world. *)
Definition M (A : Type) : Type := World -> A * World.

Definition ret {A} (a : A) : M A := fun w => (a, w).

Definition bind {A B} (m : M A) (k : A -> M B) : M B :=
  fun w => let (a, w') := m w in k a w'.

Notation "x <- m ;; k" := (bind m (fun x => k))
  (at level 61, m at next level, right associativity).

(** Make a call: its outcome is read off, it joins the history, and a
    cancel leaves the context done. *)
Definition invoke (env : Outcomes) (c : call) : M (option error) :=
  fun w => (env c (history w),
            {| history := (history w ++ [c])%list;
               done := done w || call_eqb c Cancel |}).

(** The [select] on [l.ctx.Done()]: is the context done already? *)
Definition ctx_done : M bool := fun w => (done w, w).

(** Call [c] when the field [f] is set. *)
Definition when_set {T} (env : Outcomes) (f : option T) (c : call)
  : M (option error) :=
  match f with
  | Some _ => invoke env c
  | None => ret None
  end.

Definition Close (env : Outcomes) (l : Linker) : M (option error) :=
  r <- when_set env (get l) StmtClose ;;
  match r with
  | Some err => ret (Some (newError "unable to close get statement" (Some err)))
  | None =>
    r <- when_set env (db l) DBClose ;;
    match r with
    | Some err => ret (Some (newError "unable to close database" (Some err)))
    | None =>
      match ctx l with
      | None => ret None
      | Some _ =>
        d <- ctx_done ;;
        r <- (if d then ret None
              else _ <- invoke env Cancel ;; invoke env Shutdown) ;;
        match r with
        | Some err =>
          ret (Some (newError "unable to shutdown server" (Some err)))
        | None =>
          _ <- invoke env Shutdown ;;
          invoke env ServerClose
        end
      end
    end
  end.

(** The calls a run started in [w] added to the history. *)
Definition emitted (w w' : World) : list call :=
  skipn (List.length (history w)) (history w').

(** The position of the first [c] in a history. *)
Fixpoint first_index (c : call) (h : list call) : option nat :=
  match h with
  | [] => None
  | a :: t => if call_eqb a c then Some 0
              else option_map S (first_index c t)
  end.

(** Both calls were made, and the first [a] came before the first [b]. *)
Definition precedes (a b : call) (h : list call) : bool :=
  match first_index a h, first_index b h with
  | Some i, Some j => (i <? j)%nat
  | _, _ => false
  end.

Definition occurs (c : call) (h : list call) : bool := existsb (call_eqb c) h.

(** [a] is [b] with some of its elements left out. *)
Fixpoint subseq (a b : list call) : bool :=
  match a, b with
  | [], _ => true
  | _ :: _, [] => false
  | x :: a', y :: b' => if call_eqb x y then subseq a' b' else subseq a b'
  end.

(** The lists that [subseq] relates to [l]. *)
Fixpoint sublists (l : list call) : list (list call) :=
  match l with
  | [] => [[]]
  | x :: t => (map (cons x) (sublists t) ++ sublists t)%list
  end.

(** The calls of [Close] in the order of its text. *)
Definition close_order : list call :=
  [StmtClose; DBClose; Cancel; Shutdown; Shutdown; ServerClose].



End Lifecycle.

(** ** The scenario of the specification

    The default URL is https://duckduckgo.com and the table holds the row
    (docs, https://example.com/docs). *)

Module Scenario.
Import Errors Core Serve Admin Lifecycle.

Definition linker : Linker :=
  {| db := Some sqlDB; ctx := Some cancelCtx; get := Some sqlStmt;
     url := defaultURL; key := EmptyString; cert := EmptyString |}.

(** The zero value of the struct: nothing loaded. *)
Definition unloaded : Linker :=
  {| db := None; ctx := None; get := None;
     url := EmptyString; key := EmptyString; cert := EmptyString |}.

Definition table (x : string) : ScanResult :=
  if String.eqb x "docs" then Scanned "https://example.com/docs"
  else ScanFailed ErrNoRows.

(** A database that has gone away. *)
Definition broken (x : string) : ScanResult :=
  ScanFailed (LibraryError "driver: bad connection").

(** A stand-in for packages strings and net/url, enough to run [Add] on
    URLs of the form [scheme://]host[/path] written in ASCII. *)
Definition isSpace (c : ascii) : bool :=
  Ascii.eqb c " " || (9 <=? nat_of_ascii c)%nat && (nat_of_ascii c <=? 13)%nat.

Fixpoint trimLeft (s : string) : string :=
  match s with
  | String c t => if isSpace c then trimLeft t else s
  | EmptyString => s
  end.

Definition reverse (s : string) : string :=
  string_of_list_ascii (rev (list_ascii_of_string s)).

Definition trimSpace (s : string) : string :=
  reverse (trimLeft (reverse (trimLeft s))).

(** The host, up to the first slash, and the path from it on. *)
Fixpoint hostPath (s : string) : string * string :=
  match s with
  | EmptyString => (EmptyString, EmptyString)
  | String c t =>
    if Ascii.eqb c "/" then (EmptyString, s)
    else let (h, p) := hostPath t in (String c h, p)
  end.

Definition plainURL (scheme host path : string) : URL :=
  {| Scheme := scheme; Opaque := EmptyString; User := None; Host := host;
     Path := path; RawPath := EmptyString; ForceQuery := false;
     RawQuery := EmptyString; Fragment := EmptyString |}.

Definition parse (s : string) : URL + error :=
  match index 0 ":" s with
  | Some O => inr (LibraryError "missing protocol scheme")
  | Some _ =>
    match index 0 "://" s with
    | Some j =>
      let (h, p) := hostPath (GoString.drop (j + 3) s) in
      inl (plainURL (GoString.take j s) h p)
    | None => inl (plainURL EmptyString EmptyString s)
    end
  | None => inl (plainURL EmptyString EmptyString s)
  end.

Definition urlString (u : URL) : string :=
  (if IsAbs u then Scheme u ++ ":" else EmptyString)
  ++ (if IsAbs u || negb (String.eqb (Host u) EmptyString) then "//" else EmptyString)
  ++ Host u ++ Path u.

Definition library : Library :=
  {| TrimSpace := trimSpace; Parse := parse; URLString := urlString |}.

(** A database that accepts every statement. *)
Definition driver : Driver :=
  {| prepare := fun _ => None;
     exec := fun _ _ => None;
     rowsAffected := fun _ _ => None |}.

(** A world in which every call succeeds, one in which closing the lookup
    statement fails, and the state before any call. *)
Definition succeed : Outcomes := fun _ _ => None.

Definition stmt_fails : Outcomes :=
  fun c _ =>
    match c with
    | StmtClose => Some (LibraryError "driver: bad connection")
    | _ => None
    end.

Definition listening : World := {| history := []; done := false |}.

End Scenario.

(** ** The methods of errorValue *)

Module ErrorValue.
Import Errors.

(** [e.Unwrap()]; for an error without the method, what errors.Unwrap
    yields. *)
Definition Unwrap (e : error) : option error :=
  match e with
  | errorValue _ c => c
  | _ => None
  end.

(** [e.String()], which is [e.Error()]. *)
Definition ToString (e : error) : string := Error e.

(** The error and the causes below it, as errors.Is walks them. *)
Fixpoint chain (e : error) : list error :=
  e :: match e with
       | errorValue _ (Some c) => chain c
       | _ => []
       end.

(** [err] wraps [cause] under the context [what]: the message is the
    context, a colon and the message of the cause, and the cause is what
    unwrapping yields. *)
Definition wraps (err cause : error) (what : string) : Prop :=
  err = newError what (Some cause)
  /\ Unwrap err = Some cause
  /\ Error err = what ++ ": " ++ Error cause
  /\ In cause (chain err).

End ErrorValue.

(** ** expandString *)

Module Format.

(** The loop [for n := len(s); n < l; n++ { s += " " }], from the value [n]
    of its counter on. *)
Equations? expand_from (l n : Z) (s : string) : string
  by wf (Z.to_nat (l - n)) lt :=
  expand_from l n s with Z_lt_dec n l => {
    | left _ := expand_from l (n + 1) (s ++ " ");
    | right _ := s }.
Proof. lia. Qed.

Definition expandString (s : string) (l : Z) : string :=
  expand_from l (Z.of_nat (String.length s)) s.

(** [k] spaces. *)
Fixpoint spaces (k : nat) : string :=
  match k with
  | O => EmptyString
  | S k' => String " " (spaces k')
  end.

End Format.

(** ** List *)

Module Listing.
Import GoString Errors Core Format.

Definition sqlList : string := "SELECT LinkName, LinkURL FROM Links".

(** A row of the result: what [r.Scan(&n, &u)] yields on it. *)
Definition row : Type := (string * string) + error.

(** How the database answers [List]: the error, if any, of preparing the
    query, and the rows of its result or the error of running it.  A result
    that an error cuts short ends there: [r.Next()] is false from then on,
    and [List] does not ask why. *)
Record ListDriver := {
  list_prepare : option error;
  list_query : list row + error
}.

(** What [List] does to the outside, in order. *)
Inductive listcall :=
| ListPrepare (query : string)
| ListQuery
| RowsClose
| ListStmtClose
| Stdout (text : string).

Definition header : string :=
  expandString "Name" 15 ++ "URL" ++ newline
  ++ "==============================================" ++ newline.

(** The iterations of the loop over the rows left: the lines written and
    the value of [err] when the loop is left. *)
Fixpoint List_loop (rows : list row) : list listcall * option error :=
  match rows with
  | [] => ([], None)
  | inr e :: _ => ([], Some e)
  | inl (n, u) :: rest =>
    let (out, err) := List_loop rest in
    (Stdout (expandString n 15 ++ u ++ newline) :: out, err)
  end.

Definition List (drv : ListDriver) (l : Linker) : option error * list listcall :=
  match db l with
  | None => (Some ErrNotConfigured, [])
  | Some _ =>
    match list_prepare drv with
    | Some err =>
      (Some (newError "unable to prepare query statement" (Some err)),
       [ListPrepare sqlList])
    | None =>
      match list_query drv with
      | inr err =>
        (Some (newError "unable to execute query statement" (Some err)),
         [ListPrepare sqlList; ListQuery; ListStmtClose])
      | inl rows =>
        let (out, err) := List_loop rows in
        let calls := ([ListPrepare sqlList; ListQuery; Stdout header] ++ out
                      ++ [RowsClose; ListStmtClose])%list in
        match err with
        | Some e =>
          (Some (newError "unable to parse query statement results" (Some e)),
           calls)
        | None => (None, calls)
        end
      end
    end
  end.

(** The text written to the standard output. *)
Fixpoint printed (calls : list listcall) : string :=
  match calls with
  | [] => EmptyString
  | Stdout text :: rest => text ++ printed rest
  | _ :: rest => printed rest
  end.

(** The line of a row. *)
Definition line (r : string * string) : string :=
  expandString (fst r) 15 ++ snd r ++ newline.

Fixpoint lines (rs : list (string * string)) : string :=
  match rs with
  | [] => EmptyString
  | r :: rest => line r ++ lines rest
  end.

(** The rows before the first one whose scan fails. *)
Fixpoint scanned (rows : list row) : list (string * string) :=
  match rows with
  | inl r :: rest => r :: scanned rest
  | _ => []
  end.

(** The first failure of a scan, if any. *)
Fixpoint first_failure (rows : list row) : option error :=
  match rows with
  | [] => None
  | inr e :: _ => Some e
  | inl _ :: rest => first_failure rest
  end.

(** How many of the calls a test accepts. *)
Definition count (p : listcall -> bool) (calls : list listcall) : nat :=
  List.length (filter p calls).

Definition is_stmt_close (c : listcall) : bool :=
  match c with ListStmtClose => true | _ => false end.

Definition is_rows_close (c : listcall) : bool :=
  match c with RowsClose => true | _ => false end.

End Listing.

(** ** New and load *)

Module Loader.
Import GoString Errors Core Admin.

Definition defaultFile : string := "/etc/linker.conf".

Definition defaultDatabase : string :=
  "CREATE TABLE IF NOT EXISTS Links (LinkID INT(32) NOT NULL PRIMARY KEY AUTO_INCREMENT, "
  ++ "LinkName VARCHAR(64) NOT NULL UNIQUE, LinkURL VARCHAR(1024) NOT NULL)".

Record database := {
  Name : string;
  Server : string;
  Username : string;
  Password : string
}.

(** [Timeout] is a uint8. *)
Record config := {
  Key : string;
  Cert : string;
  Listen : string;
  Timeout : Z;
  Default : string;
  Database : database
}.

(** The fields of the embedded http.Server that [load] assigns; durations
    are in nanoseconds. *)
Record httpServer := {
  Addr : string;
  ReadTimeout : Z;
  IdleTimeout : Z;
  WriteTimeout : Z;
  ReadHeaderTimeout : Z;
  BaseContext : bool;          (* set to [l.context] *)
  routes : list string         (* the patterns that [l.serve] handles *)
}.

Definition Second : Z := 1000000000.

(** The server of [New]: a fresh mux and nothing else. *)
Definition newServer : httpServer :=
  {| Addr := EmptyString; ReadTimeout := 0; IdleTimeout := 0; WriteTimeout := 0;
     ReadHeaderTimeout := 0; BaseContext := false; routes := [] |}.

(** The operating system, encoding/json and the opening of the database, as
    [load] sees them.  [Stat] yields whether the file is a directory. *)
Record System := {
  LookupEnv : string -> option string;
  Stat : string -> bool + error;
  ReadFile : string -> string + error;
  Unmarshal : string -> config + error;
  Open : string -> option error;
  Ping : option error
}.

(** The calls [load] makes, in order. *)
Inductive syscall :=
| EnvLookup (name : string)
| StatFile (path : string)
| ReadFileCall (path : string)
| JSONUnmarshal
| SqlOpen (dsn : string)
| SqlPing
| SqlPrepare (query : string)
| SqlExec (query : string)
| SqlStmtClose
| URLParse (text : string).

(** Where a run of [load] leaves things. *)
Record loaded := {
  failure : option error;
  linker : Linker;
  server : httpServer;
  calls : list syscall
}.

Definition set_db (l : Linker) (d : option DB) : Linker :=
  {| db := d; ctx := ctx l; get := get l; url := url l; key := key l;
     cert := cert l |}.

Definition set_url (l : Linker) (u : string) : Linker :=
  {| db := db l; ctx := ctx l; get := get l; url := u; key := key l;
     cert := cert l |}.

Definition set_keys (l : Linker) (k c : string) : Linker :=
  {| db := db l; ctx := ctx l; get := get l; url := url l; key := k;
     cert := c |}.

Definition quoted (s : string) : string := quote ++ s ++ quote.

Definition dsn (d : database) : string :=
  Username d ++ ":" ++ Password d ++ "@" ++ Server d ++ "/" ++ Name d.

Definition empty (s : string) : bool := (String.length s =? 0)%nat.

(** The path of the configuration: the argument, or else the environment
    variable, or else the default file. *)
Definition config_path (sys : System) (s : string) : string * list syscall :=
  if empty s then
    match LookupEnv sys "LINKER_CONFIG" with
    | Some v => (v, [EnvLookup "LINKER_CONFIG"])
    | None => (defaultFile, [EnvLookup "LINKER_CONFIG"])
    end
  else (s, []).

(** The last part of [load]: the default URL and the server. *)
Definition configure (lib : Library) (c : config) (l : Linker) (srv : httpServer)
  (done : list syscall) : loaded :=
  let parsed :=
    if empty (Default c) then inl (l, done)
    else
      match Parse lib (Default c) with
      | inr err => inr (err, (done ++ [URLParse (Default c)])%list)
      | inl u =>
        inl (set_url l (URLString lib (with_scheme u)),
             (done ++ [URLParse (Default c)])%list)
      end in
  match parsed with
  | inr (err, done) =>
    {| failure := Some (newError ("unable to parse default URL " ++ quoted (Default c))
                           (Some err));
       linker := l; server := srv; calls := done |}
  | inl (l, done) =>
    let l := if empty (url l) then set_url l defaultURL else l in
    let t := (Second * Timeout c)%Z in
    {| failure := None;
       linker := set_keys l (Key c) (Cert c);
       server := {| Addr := Listen c; ReadTimeout := t; IdleTimeout := t;
                    WriteTimeout := t; ReadHeaderTimeout := t;
                    BaseContext := true;
                    routes := (routes srv ++ ["/"])%list |};
       calls := done |}
  end.

(** The middle part of [load]: the database, from [sql.Open] on. *)
Definition connect (sys : System) (drv : Driver) (lib : Library) (c : config)
  (l : Linker) (srv : httpServer) (done : list syscall) : loaded :=
  let d := Database c in
  let unreachable := "unable to connect to database " ++ quoted (Name d)
                     ++ " on " ++ quoted (Server d) in
  let stop err l done :=
    {| failure := Some err; linker := l; server := srv; calls := done |} in
  match Open sys (dsn d) with
  | Some err =>
    stop (newError unreachable (Some err)) (set_db l None)
         (done ++ [SqlOpen (dsn d)])%list
  | None =>
    let l := set_db l (Some sqlDB) in
    match Ping sys with
    | Some err =>
      stop (newError unreachable (Some err)) l
           (done ++ [SqlOpen (dsn d); SqlPing])%list
    | None =>
      match prepare drv defaultDatabase with
      | Some err =>
        stop (newError ("unable to prepare the initial database table in "
                        ++ quoted (Name d) ++ " on " ++ quoted (Server d))
                       (Some err)) l
             (done ++ [SqlOpen (dsn d); SqlPing; SqlPrepare defaultDatabase])%list
      | None =>
        let done := (done ++ [SqlOpen (dsn d); SqlPing; SqlPrepare defaultDatabase;
                              SqlExec defaultDatabase; SqlStmtClose])%list in
        match exec drv defaultDatabase [] with
        | Some err =>
          stop (newError ("unable to create the initial database table in "
                          ++ quoted (Name d) ++ " on " ++ quoted (Server d))
                         (Some err)) l done
        | None => configure lib c l srv done
        end
      end
    end
  end.

Definition load (sys : System) (drv : Driver) (lib : Library) (l : Linker)
  (srv : httpServer) (s : string) : loaded :=
  let stop err done :=
    {| failure := Some err; linker := l; server := srv; calls := done |} in
  let (s, done) := config_path sys s in
  match Stat sys s with
  | inr err =>
    stop (newError ("unable to access file " ++ quoted s) (Some err))
         (done ++ [StatFile s])%list
  | inl true =>
    stop (LibraryError ("file " ++ quoted s ++ " is a directory"))
         (done ++ [StatFile s])%list
  | inl false =>
    match ReadFile sys s with
    | inr err =>
      stop (newError ("unable to read file " ++ quoted s) (Some err))
           (done ++ [StatFile s; ReadFileCall s])%list
    | inl b =>
      let done := (done ++ [StatFile s; ReadFileCall s; JSONUnmarshal])%list in
      match Unmarshal sys b with
      | inr err =>
        stop (newError ("unable to parse file " ++ quoted s) (Some err)) done
      | inl c =>
        if empty (Username (Database c)) || empty (Server (Database c))
           || empty (Name (Database c)) then
          stop (LibraryError ("file " ++ quoted s
                              ++ " does not contain a valid database configuration"))
               done
        else connect sys drv lib c l srv done
      end
    end
  end.

(** The Linker that [New] starts from. *)
Definition blank : Linker :=
  {| db := None; ctx := None; get := None; url := EmptyString;
     key := EmptyString; cert := EmptyString |}.

(** [New]: the loaded Linker with its server, or the error; and the calls
    made. *)
Definition New (sys : System) (drv : Driver) (lib : Library) (s : string)
  : (Linker * httpServer + error) * list syscall :=
  let r := load sys drv lib blank newServer s in
  match failure r with
  | Some err => (inr err, calls r)
  | None => (inl (linker r, server r), calls r)
  end.

End Loader.

(** ** What a response may reflect of a request *)

Module Markup.
Import GoString.

(** The bytes that open or close a tag or an attribute value. *)
Definition markup (c : ascii) : bool :=
  Ascii.eqb c "<" || Ascii.eqb c ">" || Ascii.eqb c "'" || Ascii.eqb c dquote.

End Markup.

(** ** Worlds to run the code in *)

Module Examples.
Import Errors Core Listing Loader.

Definition rows_with_failure : list row :=
  [inl ("docs", "https://example.com/docs");
   inl ("go", "https://go.dev");
   inr (LibraryError "sql: Scan error");
   inl ("never", "https://example.com/never")].

(** A table whose third row cannot be scanned. *)
Definition two_rows_then_failure : ListDriver :=
  {| list_prepare := None; list_query := inl rows_with_failure |}.

(** A Linker that was loaded and has not listened: the database is set,
    the lookup statement and the context are not. *)
Definition after_add : Linker :=
  {| db := Some sqlDB; ctx := None; get := None;
     url := defaultURL; key := EmptyString; cert := EmptyString |}.

(** The configuration of [DefaultConfig], with a default URL that lacks
    its scheme. *)
Definition settings : config :=
  {| Key := EmptyString; Cert := EmptyString; Listen := "0.0.0.0:80";
     Timeout := 5; Default := "duckduckgo.com";
     Database := {| Name := "linker"; Server := "tcp(localhost:3306)";
                    Username := "linker_user"; Password := "password" |} |}.

(** A system with no LINKER_CONFIG in the environment, one file, the
    default one, that decodes to [settings], and a database that can be
    reached. *)
Definition system : System :=
  {| LookupEnv := fun _ => None;
     Stat := fun path => if String.eqb path defaultFile then inl false
                         else inr (LibraryError "no such file or directory");
     ReadFile := fun path => if String.eqb path defaultFile then inl "{...}"
                             else inr (LibraryError "no such file or directory");
     Unmarshal := fun _ => inl settings;
     Open := fun _ => None;
     Ping := None |}.

(** The server that [New] returns on that system. *)
Definition newServer_loaded : httpServer :=
  server (load system Scenario.driver Scenario.library blank newServer
            EmptyString).

End Examples.

(** * Properties *)

(** ** Bytes and bit fields *)

Module ByteFacts.
Import GoString.

Lemma byte_val_range (c : ascii) : (0 <= byte_val c < 256)%Z.
Proof.
  unfold byte_val. pose proof (N_ascii_bounded c) as H.
  split; [apply N2Z.is_nonneg | ].
  change 256%Z with (Z.of_N 256). apply N2Z.inj_lt. exact H.
Qed.

(** A property checked on every value of a band holds throughout it. *)
Lemma band_cases (P : Z -> bool) (lo : Z) (n : nat) :
  forallb P (map (fun k => (lo + Z.of_nat k)%Z) (seq 0 n)) = true ->
  forall v, (lo <= v < lo + Z.of_nat n)%Z -> P v = true.
Proof.
  intros Hall v Hv. rewrite forallb_forall in Hall. apply Hall.
  apply in_map_iff. exists (Z.to_nat (v - lo)). split; [lia | ].
  apply in_seq. lia.
Qed.

Lemma lor_ge_r (a b : Z) : (0 <= a -> 0 <= b -> b <= Z.lor a b)%Z.
Proof.
  intros Ha Hb. pose proof (Z.sub_lor_l_same_r a b) as H.
  assert (0 <= Z.land a (Z.lnot b))%Z by (apply Z.land_nonneg; left; exact Ha).
  lia.
Qed.

Lemma lor_ge_l (a b : Z) : (0 <= a -> 0 <= b -> a <= Z.lor a b)%Z.
Proof. intros Ha Hb. rewrite Z.lor_comm. now apply lor_ge_r. Qed.

Lemma field_nonneg (b m k : Z) : (0 <= b -> 0 <= Z.shiftl (Z.land b m) k)%Z.
Proof.
  intros Hb. apply Z.shiftl_nonneg. apply Z.land_nonneg. now left.
Qed.

End ByteFacts.

(** ** The decoder *)

Module Utf8Facts.
Import GoString Utf8 ByteFacts.

(** An ASCII byte is a rune of its own. *)
Lemma decode_ascii (c : ascii) (t : string) :
  (byte_val c < 128)%Z -> DecodeRuneInString (String c t) = (byte_val c, 1).
Proof.
  intros H. unfold DecodeRuneInString, first.
  destruct (Z.ltb_spec (byte_val c) 128); [reflexivity | lia].
Qed.

(** The leading bit fields of the sequences of two, three and four bytes. *)
Lemma lead2 (s0 : Z) :
  (194 <= s0 < 224 -> 128 <= Z.shiftl (Z.land s0 mask2) 6)%Z.
Proof.
  intros H. apply Z.leb_le.
  apply (band_cases (fun v => 128 <=? Z.shiftl (Z.land v mask2) 6)%Z 194 30);
    [vm_compute; reflexivity | lia].
Qed.

Lemma lead3 (s0 : Z) :
  (225 <= s0 < 240 -> 128 <= Z.shiftl (Z.land s0 mask3) 12)%Z.
Proof.
  intros H. apply Z.leb_le.
  apply (band_cases (fun v => 128 <=? Z.shiftl (Z.land v mask3) 12)%Z 225 15);
    [vm_compute; reflexivity | lia].
Qed.

Lemma lead4 (s0 : Z) :
  (241 <= s0 < 245 -> 128 <= Z.shiftl (Z.land s0 mask4) 18)%Z.
Proof.
  intros H. apply Z.leb_le.
  apply (band_cases (fun v => 128 <=? Z.shiftl (Z.land v mask4) 18)%Z 241 4);
    [vm_compute; reflexivity | lia].
Qed.

(** With a leading byte 0xE0 or 0xF0 the second byte carries the top bits. *)
Lemma second (s1 k : Z) :
  (144 <= s1 < 192 -> 6 <= k -> 128 <= Z.shiftl (Z.land s1 maskx) k)%Z.
Proof.
  intros H Hk.
  assert (16 <= Z.land s1 maskx)%Z as Hf.
  { apply Z.leb_le.
    apply (band_cases (fun v => 16 <=? Z.land v maskx)%Z 144 48);
      [vm_compute; reflexivity | lia]. }
  rewrite Z.shiftl_mul_pow2 by lia.
  assert (2 ^ 6 <= 2 ^ k)%Z by (apply Z.pow_le_mono_r; lia).
  change (2 ^ 6)%Z with 64%Z in *. nia.
Qed.

Ltac bound_rune :=
  repeat lazymatch goal with
  | |- (0 <= Z.shiftl (Z.land _ _) _)%Z => apply field_nonneg
  | |- (0 <= Z.land _ _)%Z => apply Z.land_nonneg; left
  | |- (0 <= Z.lor _ _)%Z => apply Z.lor_nonneg; split
  | |- (0 <= _)%Z => apply byte_val_range
  end.

(** Find the bit field that lifts a rune out of ASCII. *)
Ltac high_rune :=
  lazymatch goal with
  | |- (_ <= Z.lor _ _)%Z =>
    first
      [ eapply Z.le_trans; [ | apply lor_ge_l; bound_rune ]; high_rune
      | eapply Z.le_trans; [ | apply lor_ge_r; bound_rune ]; high_rune ]
  | |- (_ <= Z.shiftl (Z.land _ mask2) _)%Z => apply lead2; lia
  | |- (_ <= Z.shiftl (Z.land _ mask3) _)%Z => apply lead3; lia
  | |- (_ <= Z.shiftl (Z.land _ mask4) _)%Z => apply lead4; lia
  | |- (_ <= Z.shiftl (Z.land _ maskx) _)%Z => apply second; lia
  end.

(** A rune that starts at a byte outside ASCII lies outside ASCII. *)
Lemma decode_high (c : ascii) (t : string) :
  (128 <= byte_val c)%Z -> (128 <= fst (DecodeRuneInString (String c t)))%Z.
Proof.
  intros H. pose proof (byte_val_range c) as Hc.
  unfold DecodeRuneInString, first, out_of, RuneError, locb, hicb.
  set (s0 := byte_val c) in *.
  repeat match goal with
  | |- context [Z.ltb ?a ?b] => destruct (Z.ltb_spec a b)
  | |- context [Z.eqb ?a ?b] => destruct (Z.eqb_spec a b)
  | |- context [Nat.ltb ?a ?b] => destruct (Nat.ltb a b)
  | |- context [Nat.leb ?a ?b] =>
      let v := eval compute in (Nat.leb a b) in change (Nat.leb a b) with v
  | |- context [match ?s with EmptyString => _ | String _ _ => _ end] =>
      destruct s
  | |- context [(?a || ?b)%bool] => simpl orb
  end; cbn [fst]; try lia; high_rune.
Qed.

Lemma decode_width_ascii (c : ascii) (t : string) :
  (byte_val c < 128)%Z -> range_from 0 (String c t) = byte_val c :: range_from 0 t.
Proof.
  intros H. cbn [range_from]. rewrite (decode_ascii c t H). reflexivity.
Qed.

End Utf8Facts.

(** ** The name validator *)

Module NamesFacts.
Import GoString Utf8 Names ByteFacts Utf8Facts.

Lemma loop_cons (v : rune) (rest : list rune) :
  isNameValid_loop (v :: rest) = negb (rejected v) && isNameValid_loop rest.
Proof.
  unfold rejected. cbn [isNameValid_loop].
  destruct ((v <? 48)%Z || (v >? 123)%Z); [reflexivity | ].
  destruct (blacklisted v); reflexivity.
Qed.

Lemma blacklisted_In (v : rune) : blacklisted v = true <-> In v blacklist.
Proof.
  unfold blacklisted. rewrite existsb_exists. split.
  - intros [x [Hx Heq]]. apply Z.eqb_eq in Heq. now subst.
  - intros H. exists v. split; [exact H | apply Z.eqb_refl].
Qed.

Lemma rejected_false (v : rune) :
  rejected v = false <-> (48 <= v <= 123)%Z /\ ~ In v blacklist.
Proof.
  unfold rejected. rewrite !orb_false_iff, Z.ltb_ge, Z.gtb_ltb, Z.ltb_ge.
  rewrite <- blacklisted_In, not_true_iff_false. tauto.
Qed.

(** Inside the band the blacklist is the complement of [a-zA-Z0-9]. *)
Lemma band_split (v : rune) :
  (48 <= v <= 123)%Z -> blacklisted v = negb (alnum_rune v).
Proof.
  intros H. apply eqb_prop.
  apply (band_cases (fun x => Bool.eqb (blacklisted x) (negb (alnum_rune x))) 48 76);
    [vm_compute; reflexivity | lia].
Qed.

Lemma rejected_alnum (v : rune) : rejected v = negb (alnum_rune v).
Proof.
  unfold rejected.
  destruct (Z.ltb_spec v 48) as [Hlo | Hlo].
  - unfold alnum_rune.
    repeat match goal with
    | |- context [Z.leb ?a ?b] => destruct (Z.leb_spec a b)
    end; try lia; reflexivity.
  - rewrite Z.gtb_ltb. destruct (Z.ltb_spec 123 v) as [Hhi | Hhi].
    + unfold alnum_rune.
      repeat match goal with
      | |- context [Z.leb ?a ?b] => destruct (Z.leb_spec a b)
      end; try lia; reflexivity.
    + cbn [orb]. apply band_split. lia.
Qed.

Lemma loop_Forall (P : rune -> Prop) (rs : list rune) :
  (forall v, rejected v = false <-> P v) ->
  isNameValid_loop rs = true <-> Forall P rs.
Proof.
  intros HP. induction rs as [ | v rest IH].
  - split; [constructor | reflexivity].
  - rewrite loop_cons, andb_true_iff, negb_true_iff, HP, IH.
    split.
    + intros [Hv Hrest]. now constructor.
    + intros H. inversion H; subst. now split.
Qed.

Lemma alnum_is_ascii (c : ascii) : alnum c = true -> (byte_val c < 128)%Z.
Proof.
  unfold alnum, alnum_rune. intros H.
  repeat match type of H with
  | context [Z.leb ?a ?b] => destruct (Z.leb_spec a b)
  end; try lia; discriminate H.
Qed.

(** On the bytes: the validator accepts exactly the strings over
    [a-zA-Z0-9]. *)
Lemma isNameValid_bytes (s : string) : isNameValid s = all_bytes alnum s.
Proof.
  unfold isNameValid, range_string.
  induction s as [ | c t IH]; [reflexivity | ].
  cbn [all_bytes]. destruct (Z.lt_ge_cases (byte_val c) 128) as [Hc | Hc].
  - rewrite decode_width_ascii by exact Hc.
    rewrite loop_cons, rejected_alnum, negb_involutive, IH. reflexivity.
  - cbn [range_from]. pose proof (decode_high c t Hc) as Hr.
    destruct (DecodeRuneInString (String c t)) as [r w]. cbn [fst] in Hr.
    rewrite loop_cons.
    assert (rejected r = true) as ->.
    { unfold rejected. destruct (Z.gtb_spec r 123); [ | lia].
      now rewrite orb_true_r. }
    destruct (alnum c) eqn:Ha; [ | reflexivity].
    apply alnum_is_ascii in Ha. lia.
Qed.

(** An ASCII byte of a string is one of its runes: the bytes the decoder
    passes over are not ASCII. *)
Lemma decode_continuations (s : string) :
  all_bytes continuation (slice 1 (snd (DecodeRuneInString s)) s) = true.
Proof.
  unfold DecodeRuneInString, first, out_of, locb, hicb, slice.
  destruct s as [ | c0 t]; [reflexivity | ].
  repeat match goal with
  | |- context [Z.ltb ?a ?b] => destruct (Z.ltb_spec a b)
  | |- context [Z.eqb ?a ?b] => destruct (Z.eqb_spec a b)
  | |- context [Nat.ltb ?a ?b] => destruct (Nat.ltb a b)
  | |- context [Nat.leb ?a ?b] =>
      let v := eval compute in (Nat.leb a b) in change (Nat.leb a b) with v
  | |- context [match ?s with EmptyString => _ | String _ _ => _ end] =>
      destruct s
  | |- context [(?a || ?b)%bool] => simpl orb
  end; cbn [snd Nat.sub drop take all_bytes]; try reflexivity;
  unfold continuation;
  repeat match goal with
  | |- context [Z.leb ?a ?b] => destruct (Z.leb_spec a b)
  end; try lia; reflexivity.
Qed.

Lemma range_from_skip (k : nat) (s : string) :
  all_bytes continuation (take k s) = true ->
  forall c, In c (list_ascii_of_string s) -> (byte_val c < 128)%Z ->
  In (byte_val c) (range_from k s).
Proof.
  revert k. induction s as [ | c0 t IH]; intros k Hk c Hin Hc; [destruct Hin | ].
  destruct k as [ | k].
  - cbn [range_from].
    pose proof (decode_continuations (String c0 t)) as Hcont.
    destruct (Z.lt_ge_cases (byte_val c0) 128) as [H0 | H0].
    + rewrite (decode_ascii c0 t H0) in *. cbn [Nat.sub].
      destruct Hin as [-> | Hin]; [now left | right].
      apply IH; [reflexivity | exact Hin | exact Hc].
    + destruct (DecodeRuneInString (String c0 t)) as [r w]. cbn [snd] in Hcont.
      destruct Hin as [-> | Hin]; [lia | right].
      apply IH; [ | exact Hin | exact Hc].
      unfold slice in Hcont. cbn [drop] in Hcont. exact Hcont.
  - cbn [range_from]. cbn [take all_bytes] in Hk.
    apply andb_true_iff in Hk as [Hc0 Hk].
    destruct Hin as [-> | Hin].
    + unfold continuation in Hc0. apply Z.leb_le in Hc0. lia.
    + apply IH; assumption.
Qed.

Lemma ascii_byte_is_rune (s : string) (c : ascii) :
  In c (list_ascii_of_string s) -> (byte_val c < 128)%Z ->
  In (byte_val c) (range_string s).
Proof. intros Hin Hc. now apply range_from_skip. Qed.

Lemma all_bytes_In (p : ascii -> bool) (s : string) :
  all_bytes p s = true <-> (forall c, In c (list_ascii_of_string s) -> p c = true).
Proof.
  induction s as [ | c0 t IH]; cbn [all_bytes list_ascii_of_string].
  - split; [intros _ c [] | reflexivity].
  - rewrite andb_true_iff, IH. split.
    + intros [H0 Ht] c [<- | Hin]; auto.
    + intros H. split; [apply H; now left | intros c Hin; apply H; now right].
Qed.

Lemma control_rejected (v : rune) : control v -> rejected v = true.
Proof.
  unfold control, rejected. intros H.
  destruct (Z.ltb_spec v 48); [reflexivity | ].
  destruct (Z.gtb_spec v 123); [reflexivity | lia].
Qed.

(** C7. [isNameValid s] holds exactly when every character of [s] has its
    code point in the band 48..123 and is none of the blacklisted
    punctuation characters [: ; < = > ? @ \[ \] \ ^ _ ` { | } ~], whose code
    points the first part lists.  In particular the empty name is valid, a
    name made of ASCII letters and digits only is accepted, and a name that
    contains a blacklisted character or a control character, as one of its
    runes or as one of its bytes, is rejected. *)
Theorem isNameValid_band_and_blacklist :
  blacklist = [58; 59; 60; 61; 62; 63; 64; 91; 93; 92; 94; 95; 96; 123; 124; 125; 126]%Z
  /\ (forall s, isNameValid s = true <->
                Forall (fun v => (48 <= v <= 123)%Z /\ ~ In v blacklist) (range_string s))
  /\ isNameValid EmptyString = true
  /\ (forall s, all_bytes alnum s = true -> isNameValid s = true)
  /\ (forall s v, In v (range_string s) -> In v blacklist \/ control v ->
                  isNameValid s = false)
  /\ (forall s c, In c (list_ascii_of_string s) ->
                  In (byte_val c) blacklist \/ control (byte_val c) ->
                  isNameValid s = false).
Proof.
  assert (forall s, isNameValid s = true <->
            Forall (fun v => (48 <= v <= 123)%Z /\ ~ In v blacklist) (range_string s))
    as Hiff by (intros s; apply loop_Forall, rejected_false).
  assert (forall s v, In v (range_string s) -> In v blacklist \/ control v ->
            isNameValid s = false) as Hrune.
  { intros s v Hin Hbad. apply not_true_is_false. intros Hvalid.
    apply Hiff in Hvalid. rewrite Forall_forall in Hvalid.
    destruct (Hvalid v Hin) as [Hband Hnot].
    destruct Hbad as [Hbl | Hctl]; [now apply Hnot | ].
    apply control_rejected in Hctl.
    assert (rejected v = false) by (apply rejected_false; now split).
    congruence. }
  repeat split.
  - apply Hiff.
  - apply Hiff.
  - intros s Hs. now rewrite isNameValid_bytes.
  - exact Hrune.
  - intros s c Hin Hbad.
    destruct (Z.lt_ge_cases (byte_val c) 128) as [Hc | Hc].
    + apply (Hrune s (byte_val c)); [now apply ascii_byte_is_rune | exact Hbad].
    + rewrite isNameValid_bytes. apply not_true_is_false. intros Hall.
      rewrite all_bytes_In in Hall. apply Hall, alnum_is_ascii in Hin. lia.
Qed.

End NamesFacts.

(** ** The path matcher and the escaping of the request URI *)

Module MatcherFacts.
Import GoString Names Html PathMatcher NamesFacts.

Lemma alnum_run_le (s : string) : alnum_run s <= String.length s.
Proof.
  induction s as [ | c t IH]; cbn [alnum_run String.length]; [lia | ].
  destruct (alnum c); lia.
Qed.

(** The greedy run covers a string exactly when the string is over the
    class. *)
Lemma alnum_run_all (s : string) :
  alnum_run s = String.length s <-> all_bytes alnum s = true.
Proof.
  induction s as [ | c t IH]; cbn [alnum_run String.length all_bytes].
  - split; reflexivity.
  - destruct (alnum c); cbn [andb].
    + rewrite <- IH. split; [intros H; now injection H | intros ->; reflexivity].
    + split; discriminate.
Qed.

Lemma take_run_alnum (s : string) : all_bytes alnum (take (alnum_run s) s) = true.
Proof.
  induction s as [ | c t IH]; cbn [alnum_run]; [reflexivity | ].
  destruct (alnum c) eqn:Hc; [ | reflexivity].
  cbn [take all_bytes]. now rewrite Hc, IH.
Qed.

Lemma take_app_length (a b : string) : take (String.length a) (a ++ b) = a.
Proof.
  induction a as [ | c t IH]; cbn [String.length append take].
  - destruct b; reflexivity.
  - now rewrite IH.
Qed.

Lemma drop_app_length (a b : string) : drop (String.length a) (a ++ b) = b.
Proof. induction a as [ | c t IH]; cbn [String.length append drop]; auto. Qed.

Lemma append_empty_r (s : string) : s ++ EmptyString = s.
Proof. induction s as [ | c t IH]; cbn [append]; [reflexivity | now rewrite IH]. Qed.

Lemma drop_all (s : string) : drop (String.length s) s = EmptyString.
Proof. induction s as [ | c t IH]; cbn [String.length drop]; auto. Qed.

Lemma take_drop (k : nat) (s : string) : take k s ++ drop k s = s.
Proof.
  revert s. induction k as [ | k IH]; intros [ | c t]; cbn [take drop append];
    try reflexivity.
  now rewrite IH.
Qed.

(** A byte of the class is not rewritten by the escaper; any other byte is
    rewritten to a string that starts outside the class. *)
Lemma escape_alnum (c : ascii) :
  alnum c = true -> escape_byte c = String c EmptyString.
Proof.
  intros Hc. unfold escape_byte.
  repeat match goal with
  | |- context [Ascii.eqb c ?d] =>
      destruct (Ascii.eqb_spec c d) as [-> | _]; [discriminate Hc | ]
  end.
  reflexivity.
Qed.

Lemma escape_other (c : ascii) (t : string) :
  alnum c = false -> alnum_run (escape_byte c ++ t) = 0.
Proof.
  intros Hc. unfold escape_byte.
  repeat match goal with
  | |- context [Ascii.eqb c ?d] =>
      destruct (Ascii.eqb_spec c d) as [-> | _]; [reflexivity | ]
  end.
  cbn [append alnum_run]. now rewrite Hc.
Qed.


(** Escaping leaves the leading run of the class as it is and rewrites only
    what follows it. *)
Lemma alnum_run_escape (s : string) : alnum_run (EscapeString s) = alnum_run s.
Proof.
  induction s as [ | c t IH]; [reflexivity | ].
  cbn [EscapeString alnum_run]. destruct (alnum c) eqn:Hc.
  - rewrite (escape_alnum c Hc). cbn [append alnum_run]. now rewrite Hc, IH.
  - now apply escape_other.
Qed.

Lemma escape_split (s : string) :
  EscapeString s
  = take (alnum_run s) s ++ EscapeString (drop (alnum_run s) s).
Proof.
  induction s as [ | c t IH]; [reflexivity | ].
  cbn [EscapeString alnum_run]. destruct (alnum c) eqn:Hc.
  - rewrite (escape_alnum c Hc). cbn [append take drop]. now rewrite <- IH.
  - reflexivity.
Qed.

Lemma escape_app (a b : string) :
  EscapeString (a ++ b) = EscapeString a ++ EscapeString b.
Proof.
  induction a as [ | c t IH]; [reflexivity | ].
  cbn [append EscapeString]. rewrite IH.
  generalize (escape_byte c) as e. intros e.
  induction e as [ | d e IHe]; [reflexivity | ]. cbn [append]. now rewrite IHe.
Qed.


Lemma escape_empty (s : string) :
  EscapeString s = EmptyString <-> s = EmptyString.
Proof.
  split; [ | intros ->; reflexivity].
  destruct s as [ | c t]; [reflexivity | ].
  cbn [EscapeString]. unfold escape_byte.
  repeat match goal with
  | |- context [Ascii.eqb c ?d] => destruct (Ascii.eqb c d)
  end; discriminate.
Qed.

Lemma escape_length (s : string) :
  String.length s <= String.length (EscapeString s).
Proof.
  induction s as [ | c t IH]; [reflexivity | ].
  cbn [EscapeString]. unfold escape_byte.
  repeat match goal with
  | |- context [Ascii.eqb c ?d] => destruct (Ascii.eqb c d)
  end; cbn [append String.length]; lia.
Qed.

(** What a match of the pattern says about the string. *)
Lemma FindStringIndex_Some (s : string) (p0 p1 : nat) :
  FindStringIndex s = Some (p0, p1) ->
  exists t, s = String "/" t /\ p0 = 0 /\ p1 = 1 + alnum_run t /\ 1 <= alnum_run t.
Proof.
  destruct s as [ | c t]; [discriminate | ]. cbn [FindStringIndex].
  destruct (Ascii.eqb_spec c "/") as [-> | _]; [ | discriminate].
  destruct (alnum_run t) as [ | k] eqn:Hk; [discriminate | ].
  intros H. injection H as <- <-. exists t. rewrite Hk. repeat split. lia.
Qed.

Lemma FindStringIndex_bounds (s : string) (p0 p1 : nat) :
  FindStringIndex s = Some (p0, p1) -> p0 = 0 /\ 1 < p1 <= String.length s.
Proof.
  intros H. apply FindStringIndex_Some in H as [t [-> [-> [-> Hrun]]]].
  pose proof (alnum_run_le t). cbn [String.length]. lia.
Qed.

Lemma FindStringIndex_slash (t : string) :
  FindStringIndex (String "/" t)
  = match alnum_run t with O => None | S k => Some (0, 1 + S k) end.
Proof. reflexivity. Qed.

(** The request URI ["/" ++ name ++ suffix] whose escaped form the pattern
    matches over the span of ["/" ++ name]: the key looked up is [name] and
    what follows the span is the escaped suffix. *)
Lemma matched_span (name suffix : string) (p0 p1 : nat) :
  FindStringIndex (EscapeString (String "/" (name ++ suffix))) = Some (p0, p1) ->
  p1 = 1 + String.length name ->
  p0 = 0 /\ 1 <= String.length name
  /\ slice 1 p1 (EscapeString (String "/" (name ++ suffix))) = name
  /\ drop p1 (EscapeString (String "/" (name ++ suffix))) = EscapeString suffix.
Proof.
  intros Hfind Hp1.
  change (EscapeString (String "/" (name ++ suffix)))
    with (String "/" (EscapeString (name ++ suffix))) in *.
  apply FindStringIndex_Some in Hfind as [t [Ht [Hp0 [Hrun Hpos]]]].
  injection Ht as <-. rewrite alnum_run_escape in Hrun, Hpos.
  assert (alnum_run (name ++ suffix) = String.length name) as Hlen by lia.
  pose proof (escape_split (name ++ suffix)) as Hsplit.
  rewrite Hlen, take_app_length, drop_app_length in Hsplit.
  rewrite Hp1. unfold slice.
  replace (1 + String.length name - 1) with (String.length name) by lia.
  cbn [drop Nat.add]. rewrite Hsplit.
  rewrite take_app_length, drop_app_length. repeat split; [exact Hp0 | lia].
Qed.

(** C10. [isNameValid s] holds exactly when every character of [s] is an
    ASCII letter or digit: within the band 48..123 the blacklist removes
    everything else.  The names the validator accepts are thus the strings
    over the class [a-zA-Z0-9] of the path matcher's pattern: rune by rune,
    byte by byte, and, for a name that is not empty, as the strings [s] such
    that the pattern matches all of ["/" ++ s]. *)
Theorem isNameValid_exactly_alnum (s : string) :
  (isNameValid s = true <->
   Forall (fun v => alnum_rune v = true) (Utf8.range_string s))
  /\ isNameValid s = all_bytes alnum s
  /\ (isNameValid s = true /\ s <> EmptyString <->
      FindStringIndex (String "/" s) = Some (0, 1 + String.length s)).
Proof.
  split; [ | split].
  - apply loop_Forall. intros v. rewrite rejected_alnum.
    destruct (alnum_rune v); split; intros H; try reflexivity; discriminate H.
  - apply isNameValid_bytes.
  - rewrite isNameValid_bytes, <- alnum_run_all, FindStringIndex_slash.
    pose proof (alnum_run_le s) as Hle.
    destruct (alnum_run s) as [ | k] eqn:Hk.
    + split; [ | discriminate]. intros [Hlen Hne].
      destruct s; [now elim Hne | discriminate Hlen].
    + split.
      * intros [<- _]. reflexivity.
      * intros H. injection H as H. split; [lia | ].
        intros ->. discriminate Hk.
Qed.

End MatcherFacts.

(** ** The request handler *)

Module ServeFacts.
Import GoString Names Html PathMatcher Errors Core Serve MatcherFacts.

Lemma candidate_false (s : string) :
  candidate s = false <->
  match FindStringIndex s with
  | Some (p0, p1) => p0 <> 0 \/ p1 <= 1
  | None => True
  end.
Proof.
  unfold candidate. destruct (FindStringIndex s) as [[p0 p1] | ]; [ | tauto].
  rewrite andb_false_iff, negb_false_iff, Nat.eqb_neq, Nat.leb_le. tauto.
Qed.

(** The candidates are the strings that start with a slash and a member of
    the class. *)
Lemma candidate_true (s : string) :
  candidate s = true <->
  exists c t, s = String "/" (String c t) /\ alnum c = true.
Proof.
  unfold candidate. split.
  - destruct (FindStringIndex s) as [[p0 p1] | ] eqn:Hf; [ | discriminate].
    intros _. apply FindStringIndex_Some in Hf as [t [-> [_ [_ Hrun]]]].
    destruct t as [ | c t]; cbn [alnum_run] in Hrun; [lia | ].
    destruct (alnum c) eqn:Hc; [ | lia]. now exists c, t.
  - intros [c [t [-> Hc]]]. cbn [FindStringIndex alnum_run].
    rewrite Hc. reflexivity.
Qed.

(** A URI whose escaped form the pattern matches has more than one byte. *)
Lemma matched_length (uri : string) (p : nat * nat) :
  FindStringIndex (EscapeString uri) = Some p -> 1 < String.length uri.
Proof.
  destruct p as [p0 p1]. intros Hf.
  apply FindStringIndex_Some in Hf as [t [Hs [_ [_ Hrun]]]].
  destruct uri as [ | c u]; [discriminate Hs | ].
  destruct u as [ | c' u']; [ | cbn [String.length]; lia].
  cbn [EscapeString] in Hs. unfold escape_byte in Hs.
  repeat match type of Hs with
  | context [Ascii.eqb c ?d] => destruct (Ascii.eqb c d)
  end; cbn [append] in Hs; try discriminate Hs;
  injection Hs as _ <-; cbn [alnum_run] in Hrun; lia.
Qed.

(** [serve] past the two guards: the lookup and what follows it. *)
Lemma serve_matched (scan : string -> ScanResult) (l : Linker) (uri : string)
  (p1 : nat) (st : Stmt) :
  FindStringIndex (EscapeString uri) = Some (0, p1) ->
  get l = Some st ->
  serve scan l uri
  = QueryRow (slice 1 p1 (EscapeString uri)) ::
    match scan (slice 1 p1 (EscapeString uri)) with
    | ScanFailed ErrNoRows => [HttpRedirect (url l) StatusTemporaryRedirect]
    | ScanFailed err =>
      [WriteHeader StatusInternalServerError;
       WriteBody ("Could not fetch requested URL " ++ quote
                  ++ slice 1 p1 (EscapeString uri) ++ quote);
       StderrWrite ("http function received an error: " ++ Error err
                    ++ "!" ++ newline)]
    | Scanned n =>
      if (String.length n =? 0)%nat then
        [HttpRedirect (url l) StatusTemporaryRedirect]
      else
        [HttpRedirect (n ++ drop p1 (EscapeString uri)) StatusTemporaryRedirect]
    end.
Proof.
  intros Hf Hget. pose proof (matched_length uri _ Hf) as Hlen.
  pose proof Hf as Hf'.
  apply FindStringIndex_Some in Hf' as [t [Hs [_ [Hp1 Hrun]]]].
  unfold serve.
  destruct (Nat.leb_spec (String.length uri) 1) as [Hle | _]; [lia | ].
  rewrite Hf, Hget. cbn [Nat.eqb negb orb].
  destruct (Nat.leb_spec p1 1) as [Hle | _]; [lia | ].
  f_equal.
  destruct (scan (slice 1 p1 (EscapeString uri))) as [n | err]; [ | reflexivity].
  destruct (String.length n =? 0)%nat; [reflexivity | ].
  destruct (Nat.ltb_spec p1 (String.length (EscapeString uri))) as [_ | Hge];
    [reflexivity | ].
  replace (drop p1 (EscapeString uri)) with EmptyString;
    [now rewrite append_empty_r | ].
  pose proof (alnum_run_le t) as Hrun_le. rewrite Hs in *.
  cbn [String.length] in Hge.
  assert (alnum_run t = String.length t) as Hall by lia.
  rewrite Hp1. cbn [Nat.add drop]. now rewrite Hall, drop_all.
Qed.

(** C6. A request whose raw URI has at most one byte, and a request whose
    escaped URI yields no candidate name (no match of the pattern that
    starts at index 0 and spans more than one byte, that is, no slash
    followed by a member of [a-zA-Z0-9], see [candidate_true]), is answered
    by a 307 redirect to the configured default URL and by nothing else:
    whatever the lookup statement would return, it is not run. *)
Theorem serve_default_without_lookup (scan : string -> ScanResult) (l : Linker)
  (uri : string) :
  String.length uri <= 1 \/ candidate (EscapeString uri) = false ->
  serve scan l uri = [HttpRedirect (url l) 307]
  /\ forall x, ~ In (QueryRow x) (serve scan l uri).
Proof.
  intros H.
  assert (serve scan l uri = [HttpRedirect (url l) 307]) as Heq.
  { unfold serve, StatusTemporaryRedirect.
    destruct (Nat.leb_spec (String.length uri) 1) as [_ | Hlen]; [reflexivity | ].
    destruct H as [H | H]; [lia | ].
    apply candidate_false in H.
    destruct (FindStringIndex (EscapeString uri)) as [[p0 p1] | ]; [ | reflexivity].
    destruct (Nat.eqb_spec p0 0) as [-> | _]; [ | reflexivity].
    destruct (Nat.leb_spec p1 1) as [_ | Hp1]; [reflexivity | ].
    destruct H as [H | H]; [now elim H | lia]. }
  split; [exact Heq | ].
  intros x Hin. rewrite Heq in Hin. destruct Hin as [Hin | []]. discriminate Hin.
Qed.

Lemma serve_default_without_lookup_witness :
  (serve Scenario.table Scenario.linker "/"
   = [HttpRedirect (url Scenario.linker) 307]
   /\ forall x, ~ In (QueryRow x) (serve Scenario.table Scenario.linker "/"))
  /\
  (serve Scenario.broken Scenario.linker "/-/docs"
   = [HttpRedirect (url Scenario.linker) 307]
   /\ forall x, ~ In (QueryRow x) (serve Scenario.broken Scenario.linker "/-/docs")).
Proof.
  split.
  - apply (serve_default_without_lookup Scenario.table Scenario.linker "/").
    left. cbn [String.length]. lia.
  - apply (serve_default_without_lookup Scenario.broken Scenario.linker "/-/docs").
    right. reflexivity.
Defined.

(** C2. Once the escaped URI has yielded the lookup key [x], the handler
    tells three outcomes of the lookup apart.  The row-not-found condition
    is answered by a 307 redirect to the configured default URL, with
    nothing written to the error stream.  Any other error is answered by
    status 500 and a body that names the key, the error is written to the
    error stream, and no redirect is made.  A non-empty URL is answered by
    a 307 redirect to that URL, followed by whatever the escaped URI holds
    after the matched span; that is the URL itself when the span ends the
    URI. *)
Theorem serve_three_outcomes (scan : string -> ScanResult) (l : Linker)
  (uri : string) (p1 : nat) :
  let s := EscapeString uri in
  let x := slice 1 p1 s in
  FindStringIndex s = Some (0, p1) ->
  get l <> None ->
  (scan x = ScanFailed ErrNoRows ->
   serve scan l uri = [QueryRow x; HttpRedirect (url l) 307])
  /\
  (forall err, scan x = ScanFailed err -> err <> ErrNoRows ->
   serve scan l uri
   = [QueryRow x;
      WriteHeader 500;
      WriteBody ("Could not fetch requested URL " ++ quote ++ x ++ quote);
      StderrWrite ("http function received an error: " ++ Error err ++ "!" ++ newline)]
   /\ forall target code, ~ In (HttpRedirect target code) (serve scan l uri))
  /\
  (forall n, scan x = Scanned n -> n <> EmptyString ->
   serve scan l uri = [QueryRow x; HttpRedirect (n ++ drop p1 s) 307]
   /\ (p1 = String.length s -> serve scan l uri = [QueryRow x; HttpRedirect n 307])).
Proof.
  intros s x Hf Hget. subst s x.
  destruct (get l) as [st | ] eqn:Hst; [clear Hget | now elim Hget].
  rewrite (serve_matched scan l uri p1 st Hf Hst).
  unfold StatusTemporaryRedirect, StatusInternalServerError.
  split; [ | split].
  - intros ->. reflexivity.
  - intros err -> Hne.
    assert (forall A (a b : A), match err with ErrNoRows => a | _ => b end = b) as Hm
      by (intros A a b; destruct err; try reflexivity; now elim Hne).
    rewrite Hm. split; [reflexivity | ].
    intros target code Hin.
    repeat (destruct Hin as [Hin | Hin]; [discriminate Hin | ]). exact Hin.
  - intros n -> Hn.
    destruct n as [ | c n]; [now elim Hn | ]. cbn [String.length Nat.eqb].
    split; [reflexivity | ].
    intros ->. now rewrite drop_all, append_empty_r.
Qed.

Lemma serve_three_outcomes_witness :
  serve Scenario.table Scenario.linker "/missing"
  = [QueryRow "missing"; HttpRedirect "https://duckduckgo.com" 307]
  /\ serve Scenario.broken Scenario.linker "/docs"
     = [QueryRow "docs";
        WriteHeader 500;
        WriteBody ("Could not fetch requested URL " ++ quote ++ "docs" ++ quote);
        StderrWrite ("http function received an error: driver: bad connection!"
                     ++ newline)]
  /\ serve Scenario.table Scenario.linker "/docs"
     = [QueryRow "docs"; HttpRedirect "https://example.com/docs" 307].
Proof.
  assert (get Scenario.linker <> None) as Hget by discriminate.
  split; [ | split].
  - destruct (serve_three_outcomes Scenario.table Scenario.linker "/missing" 8
                eq_refl Hget) as [Hmiss _].
    exact (Hmiss eq_refl).
  - destruct (serve_three_outcomes Scenario.broken Scenario.linker "/docs" 5
                eq_refl Hget) as [_ [Herr _]].
    destruct (Herr (LibraryError "driver: bad connection") eq_refl) as [Heq _];
      [discriminate | exact Heq].
  - destruct (serve_three_outcomes Scenario.table Scenario.linker "/docs" 5
                eq_refl Hget) as [_ [_ Hok]].
    destruct (Hok "https://example.com/docs" eq_refl) as [_ Heq];
      [discriminate | exact (Heq eq_refl)].
Defined.

(** The handler on the requests of the scenario, and on a broken database. *)
Example serve_scenario :
  serve Scenario.table Scenario.linker "/docs"
  = [QueryRow "docs"; HttpRedirect "https://example.com/docs" 307]
  /\ serve Scenario.table Scenario.linker "/docs/extra?q=1"
     = [QueryRow "docs"; HttpRedirect "https://example.com/docs/extra?q=1" 307]
  /\ serve Scenario.table Scenario.linker "/missing"
     = [QueryRow "missing"; HttpRedirect "https://duckduckgo.com" 307]
  /\ serve Scenario.table Scenario.linker "/"
     = [HttpRedirect "https://duckduckgo.com" 307]
  /\ serve Scenario.broken Scenario.linker "/docs"
     = [QueryRow "docs";
        WriteHeader 500;
        WriteBody ("Could not fetch requested URL " ++ quote ++ "docs" ++ quote);
        StderrWrite ("http function received an error: driver: bad connection!"
                     ++ newline)].
Proof. repeat split. Qed.




End ServeFacts.

(** ** The administrative calls *)

Module AdminFacts.
Import GoString Names Errors Core Admin.

Lemma with_scheme_absolute (p : URL) : IsAbs (with_scheme p) = true.
Proof.
  unfold with_scheme. destruct (IsAbs p) eqn:Hp; [exact Hp | reflexivity].
Qed.

Lemma with_scheme_scheme (p : URL) :
  Scheme (with_scheme p) = if IsAbs p then Scheme p else "https".
Proof. unfold with_scheme. destruct (IsAbs p); reflexivity. Qed.

(** The one statement [run_prepared] executes. *)
Lemma run_prepared_executed (drv : Driver) (q : string) (args : list string)
  (what : string) :
  executed (snd (run_prepared drv q args what)) = [(q, args)].
Proof.
  unfold run_prepared.
  destruct (exec drv q args); [reflexivity | ].
  destruct (rowsAffected drv q args); reflexivity.
Qed.

(** C8, as the code has it.  For a name that [isNameValid] rejects, [Add]
    and [Delete] return [ErrInvalidName] on a Linker whose database is
    set, and [ErrNotConfigured] on one whose database is not: the check of
    the database comes first.  Either way they return before any call on
    the database, so that no statement is executed. *)
Theorem Add_Delete_reject_invalid_name (lib : Library) (drv : Driver)
  (l : Linker) (n u : string) :
  isNameValid n = false ->
  (db l <> None ->
   Add lib drv l n u = (Some ErrInvalidName, [])
   /\ Delete drv l n = (Some ErrInvalidName, []))
  /\ (db l = None ->
      Add lib drv l n u = (Some ErrNotConfigured, [])
      /\ Delete drv l n = (Some ErrNotConfigured, []))
  /\ snd (Add lib drv l n u) = []
  /\ snd (Delete drv l n) = [].
Proof.
  intros Hn. unfold Add, Delete. rewrite Hn. cbn [negb].
  destruct (db l) as [d | ].
  - split; [intros _; split; reflexivity | ].
    split; [intros H; discriminate H | split; reflexivity].
  - split; [intros H; now elim H | ].
    split; [intros _; split; reflexivity | split; reflexivity].
Qed.

Lemma Add_Delete_reject_invalid_name_witness :
  (db Scenario.linker <> None ->
   Add Scenario.library Scenario.driver Scenario.linker "my_docs" "example.com"
   = (Some ErrInvalidName, [])
   /\ Delete Scenario.driver Scenario.linker "my_docs" = (Some ErrInvalidName, []))
  /\ (db Scenario.linker = None ->
      Add Scenario.library Scenario.driver Scenario.linker "my_docs" "example.com"
      = (Some ErrNotConfigured, [])
      /\ Delete Scenario.driver Scenario.linker "my_docs" = (Some ErrNotConfigured, []))
  /\ snd (Add Scenario.library Scenario.driver Scenario.linker "my_docs" "example.com") = []
  /\ snd (Delete Scenario.driver Scenario.linker "my_docs") = [].
Proof.
  apply (Add_Delete_reject_invalid_name Scenario.library Scenario.driver
           Scenario.linker "my_docs" "example.com").
  reflexivity.
Defined.

(** C8 as stated fails on a Linker that was never loaded: the name is
    rejected by [isNameValid], and yet [Add] and [Delete] return
    [ErrNotConfigured], not [ErrInvalidName]. *)
Lemma unloaded_not_invalid_name :
  isNameValid "my_docs" = false
  /\ fst (Add Scenario.library Scenario.driver Scenario.unloaded "my_docs" "example.com")
     = Some ErrNotConfigured
  /\ fst (Delete Scenario.driver Scenario.unloaded "my_docs") = Some ErrNotConfigured
  /\ fst (Add Scenario.library Scenario.driver Scenario.unloaded "my_docs" "example.com")
     <> Some ErrInvalidName
  /\ fst (Delete Scenario.driver Scenario.unloaded "my_docs") <> Some ErrInvalidName.
Proof. repeat split; discriminate. Qed.



End AdminFacts.

(** ** Teardown *)

Module LifecycleFacts.
Import Errors Core Lifecycle.

Lemma emitted_app (w w' : World) (tr : list call) :
  history w' = (history w ++ tr)%list -> emitted w w' = tr.
Proof.
  unfold emitted. intros ->.
  rewrite skipn_app, skipn_all, Nat.sub_diag. reflexivity.
Qed.

(** Unfold a run of [Close] and split on every answer of the world. *)
Ltac run_Close env :=
  unfold Close, bind, when_set, invoke, ctx_done, ret;
  repeat (cbn [fst snd history done call_eqb orb get db ctx];
          match goal with
          | |- context [env ?c ?h] => destruct (env c h) eqn:?
          end);
  cbn [fst snd history done call_eqb orb get db ctx].

Ltac flatten_history := rewrite <- ?app_assoc; cbn [app].

(** A run adds calls of [close_order] to the history, in its order, and
    leaves the context done when it was so or when a cancel is among them. *)
Lemma Close_trace (env : Outcomes) (l : Linker) (w : World) :
  exists tr,
    history (snd (Close env l w)) = (history w ++ tr)%list
    /\ subseq tr close_order = true
    /\ done (snd (Close env l w)) = done w || occurs Cancel tr.
Proof.
  destruct l as [d c g u k ce]. destruct w as [h dn].
  destruct g, d, c, dn; run_Close env;
    try (exists []; rewrite app_nil_r; repeat split; fail);
    eexists; (split; [flatten_history; reflexivity | split; reflexivity]).
Qed.

Lemma Close_subseq (env : Outcomes) (l : Linker) (w : World) :
  subseq (emitted w (snd (Close env l w))) close_order = true.
Proof.
  destruct (Close_trace env l w) as [tr [Hh [Hs _]]].
  now rewrite (emitted_app _ _ tr Hh).
Qed.

Lemma call_eqb_eq (a b : call) : call_eqb a b = true <-> a = b.
Proof. destruct a, b; split; intros H; try reflexivity; discriminate H. Qed.

Lemma subseq_sublists (a b : list call) :
  subseq a b = true -> In a (sublists b).
Proof.
  revert a. induction b as [ | y b IH]; intros a H.
  - destruct a; [now left | discriminate H].
  - cbn [sublists]. apply in_or_app. destruct a as [ | x a]; cbn [subseq] in H.
    + right. apply IH. destruct b; reflexivity.
    + destruct (call_eqb x y) eqn:Hxy.
      * left. apply call_eqb_eq in Hxy as ->. apply in_map, IH, H.
      * right. apply IH, H.
Qed.

(** A property checked on every subsequence of [close_order] holds of the
    calls of every run. *)
Lemma on_every_run (P : list call -> bool) (env : Outcomes) (l : Linker)
  (w : World) :
  forallb P (sublists close_order) = true ->
  P (emitted w (snd (Close env l w))) = true.
Proof.
  intros H. rewrite forallb_forall in H.
  apply H, subseq_sublists, Close_subseq.
Qed.

Lemma never_precedes (a b : call) (env : Outcomes) (l : Linker) (w : World) :
  forallb (fun tr => negb (precedes a b tr)) (sublists close_order) = true ->
  precedes a b (emitted w (snd (Close env l w))) = false.
Proof.
  intros H. apply negb_true_iff.
  exact (on_every_run (fun tr => negb (precedes a b tr)) env l w H).
Qed.

(** A run on a Linker that listens, with a context that is not done, that
    returns no error has made every call. *)
Lemma Close_complete (env : Outcomes) (l : Linker) (w : World) :
  get l <> None -> db l <> None -> ctx l <> None -> done w = false ->
  fst (Close env l w) = None ->
  history (snd (Close env l w)) = (history w ++ close_order)%list
  /\ done (snd (Close env l w)) = true.
Proof.
  destruct l as [d c g u k ce]. destruct w as [h dn].
  cbn [Core.get Core.db Core.ctx history done].
  intros Hg Hd Hc -> . destruct g; [ | now elim Hg]. destruct d; [ | now elim Hd].
  destruct c; [ | now elim Hc]. clear Hg Hd Hc.
  run_Close env; intros H; try discriminate H;
    (split; [flatten_history; reflexivity | reflexivity]).
Qed.

(** C3, as the code has it.  The calls of a teardown are made in the order
    of [close_order]: the lookup statement is closed first, then the
    database, then the context is cancelled, then the server is stopped and
    closed.  No run makes a cancel or a server stop before a close of the
    statement or of the database, and a run that returns no error on a
    listening Linker makes all of the calls, in that order. *)
Theorem Close_closes_before_cancelling (env : Outcomes) (l : Linker) (w : World) :
  subseq (emitted w (snd (Close env l w))) close_order = true
  /\ precedes Cancel StmtClose (emitted w (snd (Close env l w))) = false
  /\ precedes Cancel DBClose (emitted w (snd (Close env l w))) = false
  /\ precedes Shutdown StmtClose (emitted w (snd (Close env l w))) = false
  /\ precedes Shutdown DBClose (emitted w (snd (Close env l w))) = false
  /\ precedes DBClose StmtClose (emitted w (snd (Close env l w))) = false
  /\ (get l <> None -> db l <> None -> ctx l <> None -> done w = false ->
      fst (Close env l w) = None ->
      emitted w (snd (Close env l w)) = close_order
      /\ precedes StmtClose DBClose (emitted w (snd (Close env l w))) = true
      /\ precedes DBClose Cancel (emitted w (snd (Close env l w))) = true
      /\ precedes Cancel Shutdown (emitted w (snd (Close env l w))) = true
      /\ precedes Shutdown ServerClose (emitted w (snd (Close env l w))) = true).
Proof.
  split; [apply Close_subseq | ].
  repeat (split; [apply never_precedes; reflexivity | ]).
  intros Hg Hd Hc Hdone Hok.
  destruct (Close_complete env l w Hg Hd Hc Hdone Hok) as [Hh _].
  rewrite (emitted_app _ _ close_order Hh). repeat split.
Qed.

Lemma Close_closes_before_cancelling_witness :
  emitted Scenario.listening
    (snd (Close Scenario.succeed Scenario.linker Scenario.listening))
  = [StmtClose; DBClose; Cancel; Shutdown; Shutdown; ServerClose].
Proof.
  destruct (Close_closes_before_cancelling
              Scenario.succeed Scenario.linker Scenario.listening)
    as [_ [_ [_ [_ [_ [_ Hfull]]]]]].
  apply Hfull; [discriminate | discriminate | discriminate | reflexivity | reflexivity].
Defined.

(** C3 as stated fails: on a listening Linker, in a world where every call
    succeeds, the cancel and the server stop come after the two closes, not
    before them. *)
Lemma Close_does_not_cancel_first :
  emitted Scenario.listening
    (snd (Close Scenario.succeed Scenario.linker Scenario.listening))
  = [StmtClose; DBClose; Cancel; Shutdown; Shutdown; ServerClose]
  /\ precedes Cancel Shutdown
       (emitted Scenario.listening
          (snd (Close Scenario.succeed Scenario.linker Scenario.listening))) = true
  /\ precedes Shutdown StmtClose
       (emitted Scenario.listening
          (snd (Close Scenario.succeed Scenario.linker Scenario.listening))) = false
  /\ precedes StmtClose DBClose
       (emitted Scenario.listening
          (snd (Close Scenario.succeed Scenario.linker Scenario.listening))) = true
  /\ ~ (precedes Cancel Shutdown
          (emitted Scenario.listening
             (snd (Close Scenario.succeed Scenario.linker Scenario.listening))) = true
        /\ precedes Shutdown StmtClose
             (emitted Scenario.listening
                (snd (Close Scenario.succeed Scenario.linker Scenario.listening))) = true
        /\ precedes StmtClose DBClose
             (emitted Scenario.listening
                (snd (Close Scenario.succeed Scenario.linker Scenario.listening))) = true).
Proof.
  repeat split. intros [_ [H _]]. discriminate H.
Qed.

(** C4, as the code has it.  When closing the lookup statement fails,
    [Close] returns that failure at once, wrapped, and makes no other call:
    the database is not closed, the context is not cancelled and the server
    is not stopped.  When the statement closes, or is not set, and closing
    the database fails, [Close] returns likewise without a cancel or a call
    on the server.  The close of the statement and the close of the
    database are each attempted at most once in a run. *)
Theorem Close_returns_at_first_failure (env : Outcomes) (l : Linker) (w : World)
  (err : error) :
  (get l <> None -> env StmtClose (history w) = Some err ->
   fst (Close env l w) = Some (newError "unable to close get statement" (Some err))
   /\ emitted w (snd (Close env l w)) = [StmtClose]
   /\ done (snd (Close env l w)) = done w)
  /\ (db l <> None -> fst (when_set env (get l) StmtClose w) = None ->
      env DBClose (history (snd (when_set env (get l) StmtClose w))) = Some err ->
      fst (Close env l w) = Some (newError "unable to close database" (Some err))
      /\ occurs Cancel (emitted w (snd (Close env l w))) = false
      /\ occurs Shutdown (emitted w (snd (Close env l w))) = false
      /\ occurs ServerClose (emitted w (snd (Close env l w))) = false
      /\ done (snd (Close env l w)) = done w)
  /\ count_occ call_eq_dec (emitted w (snd (Close env l w))) StmtClose <= 1
  /\ count_occ call_eq_dec (emitted w (snd (Close env l w))) DBClose <= 1.
Proof.
  split; [ | split; [ | split]].
  - intros Hg He. destruct l as [d c g u k ce]. destruct w as [h dn].
    cbn [get history] in *. destruct g; [ | now elim Hg].
    unfold Close, bind, when_set, invoke, ret. cbn [get history fst snd done].
    rewrite He. cbn [fst snd done call_eqb]. rewrite orb_false_r.
    repeat split. now apply emitted_app.
  - intros Hd Hs He. destruct l as [d c g u k ce]. destruct w as [h dn].
    cbn [get db history] in *. destruct d; [ | now elim Hd].
    unfold when_set, invoke, ret in Hs, He.
    unfold Close, bind, when_set, invoke, ret. cbn [get db ctx].
    destruct g; cbn [fst snd history done] in Hs, He |- *.
    + rewrite Hs. cbn [fst snd history done]. rewrite He.
      cbn [fst snd history done call_eqb]. rewrite !orb_false_r.
      rewrite (emitted_app _ _ [StmtClose; DBClose])
        by (cbn [history]; now rewrite <- app_assoc).
      repeat split.
    + rewrite He. cbn [fst snd history done call_eqb]. rewrite !orb_false_r.
      rewrite (emitted_app _ _ [DBClose]) by reflexivity.
      repeat split.
  - apply Nat.leb_le.
    apply (on_every_run (fun tr => (count_occ call_eq_dec tr StmtClose <=? 1)%nat)).
    reflexivity.
  - apply Nat.leb_le.
    apply (on_every_run (fun tr => (count_occ call_eq_dec tr DBClose <=? 1)%nat)).
    reflexivity.
Qed.

Lemma Close_returns_at_first_failure_witness :
  fst (Close Scenario.stmt_fails Scenario.linker Scenario.listening)
  = Some (newError "unable to close get statement"
            (Some (LibraryError "driver: bad connection")))
  /\ emitted Scenario.listening
       (snd (Close Scenario.stmt_fails Scenario.linker Scenario.listening))
     = [StmtClose]
  /\ done (snd (Close Scenario.stmt_fails Scenario.linker Scenario.listening))
     = done Scenario.listening.
Proof.
  destruct (Close_returns_at_first_failure Scenario.stmt_fails Scenario.linker
              Scenario.listening (LibraryError "driver: bad connection"))
    as [Hstmt _].
  apply Hstmt; [discriminate | reflexivity].
Defined.

(** C4 as stated fails: when closing the lookup statement fails, neither
    the close of the database nor the stop of the server is attempted. *)
Lemma Close_skips_the_rest :
  Scenario.stmt_fails StmtClose (history Scenario.listening)
  = Some (LibraryError "driver: bad connection")
  /\ emitted Scenario.listening
       (snd (Close Scenario.stmt_fails Scenario.linker Scenario.listening))
     = [StmtClose]
  /\ occurs DBClose
       (emitted Scenario.listening
          (snd (Close Scenario.stmt_fails Scenario.linker Scenario.listening))) = false
  /\ occurs Shutdown
       (emitted Scenario.listening
          (snd (Close Scenario.stmt_fails Scenario.linker Scenario.listening))) = false
  /\ occurs ServerClose
       (emitted Scenario.listening
          (snd (Close Scenario.stmt_fails Scenario.linker Scenario.listening))) = false.
Proof. repeat split. Qed.








End LifecycleFacts.

(** ** expandString *)

Module FormatFacts.
Import GoString Format MatcherFacts.

Lemma append_assoc (a b c : string) : (a ++ b) ++ c = a ++ b ++ c.
Proof. induction a as [ | x a IH]; cbn [append]; [reflexivity | now rewrite IH]. Qed.

Lemma append_length (a b : string) :
  String.length (a ++ b) = String.length a + String.length b.
Proof.
  induction a as [ | x a IH]; cbn [append String.length Nat.add];
    [reflexivity | now rewrite IH].
Qed.

Lemma spaces_length (k : nat) : String.length (spaces k) = k.
Proof. induction k as [ | k IH]; cbn [spaces String.length]; auto. Qed.

(** The loop appends one space for every value of its counter below [l]. *)
Lemma expand_from_spaces (l n : Z) (s : string) :
  expand_from l n s = s ++ spaces (Z.to_nat (l - n)).
Proof.
  funelim (expand_from l n s).
  - rewrite H. replace (Z.to_nat (l - n)) with (S (Z.to_nat (l - (n + 1)))) by lia.
    cbn [spaces]. now rewrite append_assoc.
  - replace (Z.to_nat (l - n)) with 0 by lia. cbn [spaces].
    now rewrite append_empty_r.
Qed.

(** X1. [expandString s l] is [s] followed by [l - len(s)] spaces, none
    when that is not positive: its length is the larger of [len(s)] and
    [l], and expanding it again to [l] changes nothing. *)
Theorem expandString_pads (s : string) (l : Z) :
  expandString s l = s ++ spaces (Z.to_nat (l - Z.of_nat (String.length s)))
  /\ Z.of_nat (String.length (expandString s l))
     = Z.max (Z.of_nat (String.length s)) l
  /\ expandString (expandString s l) l = expandString s l.
Proof.
  assert (forall t, expandString t l
                    = t ++ spaces (Z.to_nat (l - Z.of_nat (String.length t)))) as Hpad
    by (intros t; apply expand_from_spaces).
  assert (Z.of_nat (String.length (expandString s l))
          = Z.max (Z.of_nat (String.length s)) l) as Hlen
    by (rewrite Hpad, append_length, spaces_length; lia).
  split; [apply Hpad | split; [exact Hlen | ]].
  rewrite (Hpad (expandString s l)), Hlen.
  replace (Z.to_nat (l - Z.max (Z.of_nat (String.length s)) l)) with 0 by lia.
  apply append_empty_r.
Qed.

(** X2. A string of [l] bytes or more is returned as it is, and so is
    every string when [l] is zero or negative: the function never cuts. *)
Theorem expandString_keeps_long (s : string) (l : Z) :
  (l <= Z.of_nat (String.length s))%Z -> expandString s l = s.
Proof.
  intros H. unfold expandString. rewrite expand_from_spaces.
  replace (Z.to_nat (l - Z.of_nat (String.length s))) with 0 by lia.
  apply append_empty_r.
Qed.

Lemma expandString_keeps_long_witness :
  expandString "a-name-of-18-bytes" 15 = "a-name-of-18-bytes"
  /\ expandString "docs" (-1) = "docs".
Proof.
  split; apply expandString_keeps_long; cbn [String.length]; lia.
Defined.

End FormatFacts.

(** ** List *)

Module ListFacts.
Import GoString Errors Core Format Listing MatcherFacts FormatFacts.

Lemma printed_app (a b : list listcall) :
  printed (a ++ b) = printed a ++ printed b.
Proof.
  induction a as [ | c a IH]; [reflexivity | ].
  destruct c; cbn [app printed]; try exact IH. now rewrite IH, append_assoc.
Qed.

Lemma count_app (p : listcall -> bool) (a b : list listcall) :
  count p (a ++ b) = count p a + count p b.
Proof. unfold count. now rewrite filter_app, length_app. Qed.

(** The loop writes the lines of the rows scanned, and nothing else, and is
    left with the first failure of a scan. *)
Lemma List_loop_lines (rows : list row) :
  fst (List_loop rows) = map (fun r => Stdout (line r)) (scanned rows)
  /\ snd (List_loop rows) = first_failure rows.
Proof.
  induction rows as [ | [[n u] | e] rest [IHout IHerr]]; cbn [List_loop];
    [now split | | now split].
  destruct (List_loop rest) as [out err]. cbn [fst snd] in *. subst.
  split; reflexivity.
Qed.

Lemma printed_lines (rs : list (string * string)) :
  printed (map (fun r => Stdout (line r)) rs) = lines rs.
Proof. induction rs as [ | r rs IH]; cbn [map printed lines]; [ | rewrite IH]; reflexivity. Qed.

Lemma count_lines (p : listcall -> bool) (rs : list (string * string)) :
  (forall text, p (Stdout text) = false) ->
  count p (map (fun r => Stdout (line r)) rs) = 0.
Proof.
  intros Hp. unfold count. induction rs as [ | r rs IH]; [reflexivity | ].
  cbn [map filter]. now rewrite Hp.
Qed.

(** [List] once the query has returned its rows. *)
Lemma List_rows (drv : ListDriver) (l : Linker) (rows : list row) :
  db l <> None -> list_prepare drv = None -> list_query drv = inl rows ->
  List drv l
  = (match first_failure rows with
     | Some e => Some (newError "unable to parse query statement results" (Some e))
     | None => None
     end,
     [ListPrepare sqlList; ListQuery; Stdout header]
     ++ map (fun r => Stdout (line r)) (scanned rows)
     ++ [RowsClose; ListStmtClose])%list.
Proof.
  intros Hdb Hprep Hquery. unfold List. rewrite Hprep, Hquery.
  destruct (db l); [ | now elim Hdb].
  destruct (List_loop_lines rows) as [Hout Herr].
  destruct (List_loop rows) as [out err]. cbn [fst snd] in *. subst.
  destruct (first_failure rows); reflexivity.
Qed.

(** X3. On a loaded Linker, when the query is prepared and run, [List]
    writes the header and then one line for each row, in the order of the
    result, up to the first row whose scan fails.  It returns no error when
    every scan succeeds, and the failure of the scan, wrapped, otherwise;
    the rows after a failed scan are not written. *)
Theorem List_writes_rows_in_order (drv : ListDriver) (l : Linker)
  (rows : list row) :
  db l <> None -> list_prepare drv = None -> list_query drv = inl rows ->
  printed (snd (List drv l)) = header ++ lines (scanned rows)
  /\ fst (List drv l)
     = match first_failure rows with
       | Some e => Some (newError "unable to parse query statement results" (Some e))
       | None => None
       end
  /\ (first_failure rows = None -> List.length (scanned rows) = List.length rows).
Proof.
  intros Hdb Hprep Hquery. rewrite (List_rows drv l rows Hdb Hprep Hquery).
  cbn [fst snd]. split; [ | split; [reflexivity | ]].
  - cbn [app printed]. rewrite printed_app, printed_lines. cbn [printed].
    now rewrite append_empty_r.
  - clear. induction rows as [ | [r | e] rest IH]; cbn [first_failure scanned List.length];
      [reflexivity | | discriminate].
    intros H. now rewrite IH.
Qed.

Lemma List_writes_rows_in_order_witness :
  printed (snd (List Examples.two_rows_then_failure Scenario.linker))
  = header ++ lines [("docs", "https://example.com/docs"); ("go", "https://go.dev")]
  /\ fst (List Examples.two_rows_then_failure Scenario.linker)
     = Some (newError "unable to parse query statement results"
               (Some (LibraryError "sql: Scan error")))
  /\ (Some (LibraryError "sql: Scan error") = None -> 2 = 4).
Proof.
  apply (List_writes_rows_in_order Examples.two_rows_then_failure Scenario.linker
           Examples.rows_with_failure);
    [discriminate | reflexivity | reflexivity].
Defined.

(** X4. [List] writes nothing unless the query has been run: on a Linker
    that is not loaded it returns [ErrNotConfigured] without a call on the
    database, and when the preparation or the execution of the query fails
    it returns that failure, wrapped, with nothing written. *)
Theorem List_silent_on_failure (drv : ListDriver) (l : Linker) :
  (db l = None -> List drv l = (Some ErrNotConfigured, []))
  /\ (forall err, db l <> None -> list_prepare drv = Some err ->
        List drv l = (Some (newError "unable to prepare query statement" (Some err)),
                      [ListPrepare sqlList]))
  /\ (forall err, db l <> None -> list_prepare drv = None ->
        list_query drv = inr err ->
        fst (List drv l) = Some (newError "unable to execute query statement" (Some err))
        /\ printed (snd (List drv l)) = EmptyString)
  /\ (fst (List drv l) <> None \/ exists rows, list_query drv = inl rows).
Proof.
  unfold List. destruct (db l) as [d | ].
  - split; [discriminate | ]. split; [intros err _ ->; reflexivity | ].
    split; [intros err _ -> ->; now split | ].
    destruct (list_prepare drv); [left; discriminate | ].
    destruct (list_query drv) as [rows | e]; [right; now exists rows | left; discriminate].
  - split; [reflexivity | ].
    split; [intros err H; now elim H | ].
    split; [intros err H; now elim H | left; discriminate].
Qed.

(** X5. [List] leaks neither the statement nor the rows: once the query is
    prepared, the statement is closed exactly once, by the last call,
    whether the query or a scan fails or not, and the rows are closed
    exactly once when the query returned them and not at all otherwise.
    Nothing is written after the rows are closed. *)
Theorem List_closes_what_it_opens (drv : ListDriver) (l : Linker) :
  db l <> None -> list_prepare drv = None ->
  exists body,
    snd (List drv l)
    = (ListPrepare sqlList :: ListQuery :: body ++ [ListStmtClose])%list
    /\ count is_stmt_close body = 0
    /\ match list_query drv with
       | inl rows =>
         exists out, body = (out ++ [RowsClose])%list /\ count is_rows_close out = 0
       | inr _ => body = []
       end.
Proof.
  intros Hdb Hprep.
  destruct (list_query drv) as [rows | e] eqn:Hquery.
  - rewrite (List_rows drv l rows Hdb Hprep Hquery). cbn [snd app].
    exists ((Stdout header :: map (fun r => Stdout (line r)) (scanned rows))
            ++ [RowsClose])%list.
    split; [ | split].
    + cbn [app]. now rewrite <- app_assoc.
    + rewrite count_app. change (Stdout header :: ?x) with ([Stdout header] ++ x)%list.
      rewrite count_app, count_lines by reflexivity. reflexivity.
    + eexists. split; [reflexivity | ].
      change (Stdout header :: ?x) with ([Stdout header] ++ x)%list.
      rewrite count_app, count_lines by reflexivity. reflexivity.
  - unfold List. rewrite Hprep, Hquery. destruct (db l); [ | now elim Hdb].
    exists []. repeat split.
Qed.

Lemma List_closes_what_it_opens_witness :
  exists body,
    snd (List Examples.two_rows_then_failure Scenario.linker)
    = (ListPrepare sqlList :: ListQuery :: body ++ [ListStmtClose])%list
    /\ count is_stmt_close body = 0
    /\ match list_query Examples.two_rows_then_failure with
       | inl rows =>
         exists out, body = (out ++ [RowsClose])%list /\ count is_rows_close out = 0
       | inr _ => body = []
       end.
Proof.
  apply (List_closes_what_it_opens Examples.two_rows_then_failure Scenario.linker);
    [discriminate | reflexivity].
Defined.

(** X6. The line of a row is the name, padded with spaces to 15 bytes, the
    URL and a line feed.  A name of fewer than 15 bytes puts the URL at
    column 15; a name of 15 bytes or more is followed by its URL at once,
    with nothing between them. *)
Theorem List_line_layout (n u : string) :
  line (n, u) = n ++ spaces (15 - String.length n) ++ u ++ newline
  /\ (String.length n < 15 ->
      String.length (n ++ spaces (15 - String.length n)) = 15)
  /\ (15 <= String.length n -> line (n, u) = n ++ u ++ newline).
Proof.
  unfold line. cbn [fst snd].
  pose proof (expand_from_spaces 15 (Z.of_nat (String.length n)) n) as Hpad.
  fold (expandString n 15) in Hpad.
  replace (Z.to_nat (15 - Z.of_nat (String.length n))) with (15 - String.length n)
    in Hpad by lia.
  rewrite Hpad, append_assoc. split; [reflexivity | split].
  - intros H. rewrite append_length, spaces_length. lia.
  - intros H. replace (15 - String.length n) with 0 by lia. reflexivity.
Qed.

End ListFacts.

(** ** More on the request handler *)

Module HandlerFacts.
Import GoString Names Html PathMatcher Errors Core Serve Admin Markup.
Import NamesFacts MatcherFacts ServeFacts FormatFacts.

(** Only a URI that starts with a slash has an escaped form that does. *)
Lemma escape_slash (uri t : string) :
  EscapeString uri = String "/" t ->
  exists rest, uri = String "/" rest /\ t = EscapeString rest.
Proof.
  destruct uri as [ | c rest]; [discriminate | ].
  cbn [EscapeString]. unfold escape_byte.
  repeat match goal with
  | |- context [Ascii.eqb c ?d] => destruct (Ascii.eqb c d)
  end; cbn [append]; intros H; try discriminate H.
  injection H as -> <-. now exists rest.
Qed.

Lemma take_length (k : nat) (s : string) :
  k <= String.length s -> String.length (take k s) = k.
Proof.
  revert s. induction k as [ | k IH]; intros [ | c t] H; cbn [take String.length] in *;
    try reflexivity; try lia.
  rewrite IH; lia.
Qed.

(** The key that a match yields: the leading run of the class in what
    follows the slash of the URI itself. *)
Lemma matched_key (uri : string) (p0 p1 : nat) :
  FindStringIndex (EscapeString uri) = Some (p0, p1) ->
  exists rest,
    uri = String "/" rest
    /\ p1 = 1 + alnum_run rest
    /\ 1 <= alnum_run rest
    /\ slice 1 p1 (EscapeString uri) = take (alnum_run rest) rest
    /\ drop p1 (EscapeString uri) = EscapeString (drop (alnum_run rest) rest).
Proof.
  intros Hf. apply FindStringIndex_Some in Hf as [t [Hs [_ [Hp1 Hrun]]]].
  destruct (escape_slash uri t Hs) as [rest [-> ->]].
  rewrite alnum_run_escape in Hp1, Hrun. exists rest.
  split; [reflexivity | split; [exact Hp1 | split; [exact Hrun | ]]].
  rewrite Hs, Hp1. unfold slice.
  replace (1 + alnum_run rest - 1) with (alnum_run rest) by lia.
  cbn [Nat.add drop]. rewrite (escape_split rest).
  pose proof (take_length (alnum_run rest) rest (alnum_run_le rest)) as Hlen.
  generalize dependent (take (alnum_run rest) rest). intros key Hlen.
  rewrite <- Hlen. now rewrite take_app_length, drop_app_length.
Qed.

(** The ways a run of [serve] can go. *)
Lemma serve_cases (scan : string -> ScanResult) (l : Linker) (uri : string) :
  serve scan l uri = [HttpRedirect (url l) 307]
  \/ exists p1,
       FindStringIndex (EscapeString uri) = Some (0, p1)
       /\ (get l = None
           /\ serve scan l uri
              = [StderrWrite "http function recovered from a panic: ";
                 StderrWrite (nilDereference ++ newline)]
           \/ exists st, get l = Some st).
Proof.
  unfold serve, StatusTemporaryRedirect.
  destruct (String.length uri <=? 1)%nat; [now left | ].
  destruct (FindStringIndex (EscapeString uri)) as [[p0 p1] | ]; [ | now left].
  destruct (Nat.eqb_spec p0 0) as [-> | _]; [ | now left]. cbn [negb orb].
  destruct (p1 <=? 1)%nat; [now left | ]. right. exists p1.
  split; [reflexivity | ].
  destruct (get l) as [st | ]; [right; now exists st | left; now split].
Qed.

(** X7. A run of [serve] on a Linker that listens looks up at most one
    key and answers exactly once: by one redirect, always with status 307,
    or by status 500 with a body and a line on the error stream.  A
    redirect and a status 500 never come together. *)
Theorem serve_answers_once (scan : string -> ScanResult) (l : Linker)
  (uri : string) :
  get l <> None ->
  (exists target, serve scan l uri = [HttpRedirect target 307])
  \/ (exists x target, serve scan l uri = [QueryRow x; HttpRedirect target 307])
  \/ (exists x body text,
        serve scan l uri
        = [QueryRow x; WriteHeader 500; WriteBody body; StderrWrite text]).
Proof.
  intros Hget.
  destruct (serve_cases scan l uri) as [Hdef | [p1 [Hf [[Hnone _] | [st Hst]]]]];
    [left; eauto | now elim Hget | ].
  rewrite (serve_matched scan l uri p1 st Hf Hst). right.
  unfold StatusTemporaryRedirect, StatusInternalServerError.
  destruct (scan (slice 1 p1 (EscapeString uri))) as [n | err].
  - left. destruct (String.length n =? 0)%nat; eauto.
  - destruct err; eauto 6.
Qed.

Lemma serve_answers_once_witness :
  (exists target,
     serve Scenario.broken Scenario.linker "/docs/x" = [HttpRedirect target 307])
  \/ (exists x target,
        serve Scenario.broken Scenario.linker "/docs/x"
        = [QueryRow x; HttpRedirect target 307])
  \/ (exists x body text,
        serve Scenario.broken Scenario.linker "/docs/x"
        = [QueryRow x; WriteHeader 500; WriteBody body; StderrWrite text]).
Proof.
  apply (serve_answers_once Scenario.broken Scenario.linker "/docs/x").
  discriminate.
Defined.

(** The key of a lookup is the leading run of letters and digits of what
    follows the slash of the URI, and that run is not empty. *)
Lemma looked_up_key (scan : string -> ScanResult) (l : Linker) (uri x : string) :
  In (QueryRow x) (serve scan l uri) ->
  exists rest,
    uri = String "/" rest /\ x = take (alnum_run rest) rest /\ 1 <= alnum_run rest.
Proof.
  intros Hin.
  destruct (serve_cases scan l uri) as [Hdef | [p1 [Hf [[_ Hpanic] | [st Hst]]]]].
  - rewrite Hdef in Hin. destruct Hin as [H | []]. discriminate H.
  - rewrite Hpanic in Hin.
    repeat (destruct Hin as [H | Hin]; [discriminate H | ]). destruct Hin.
  - rewrite (serve_matched scan l uri p1 st Hf Hst) in Hin.
    destruct (matched_key uri 0 p1 Hf) as [rest [-> [_ [Hrun [Hkey _]]]]].
    exists rest. split; [reflexivity | split; [ | exact Hrun]].
    destruct Hin as [H | Hin]; [injection H as <-; exact Hkey | ].
    destruct (scan _) as [n | err].
    + destruct (String.length n =? 0)%nat;
        repeat (destruct Hin as [H | Hin]; [discriminate H | ]); destruct Hin.
    + destruct err;
        repeat (destruct Hin as [H | Hin]; [discriminate H | ]); destruct Hin.
Qed.

Lemma take_run_not_empty (rest : string) :
  1 <= alnum_run rest -> take (alnum_run rest) rest <> EmptyString.
Proof.
  intros Hrun Hempty.
  pose proof (take_length (alnum_run rest) rest (alnum_run_le rest)) as Hlen.
  rewrite Hempty in Hlen. cbn [String.length] in Hlen. lia.
Qed.

(** X8. Every key that [serve] looks up is a name that [isNameValid]
    accepts, is not empty, and stands in the request URI itself right after
    the leading slash, up to the first byte that is no letter or digit:
    the escaping of the URI never reaches the key. *)
Theorem serve_looks_up_valid_names (scan : string -> ScanResult) (l : Linker)
  (uri x : string) :
  In (QueryRow x) (serve scan l uri) ->
  isNameValid x = true
  /\ x <> EmptyString
  /\ exists rest, uri = String "/" (x ++ rest) /\ alnum_run rest = 0.
Proof.
  intros Hin. destruct (looked_up_key scan l uri x Hin) as [rest [-> [-> Hrun]]].
  split; [rewrite isNameValid_bytes; apply take_run_alnum | ].
  split; [now apply take_run_not_empty | ].
  exists (drop (alnum_run rest) rest). rewrite take_drop.
  split; [reflexivity | ].
  clear. induction rest as [ | c t IH]; [reflexivity | ].
  cbn [alnum_run]. destruct (alnum c) eqn:Hc; cbn [drop alnum_run];
    [exact IH | now rewrite Hc].
Qed.

Lemma serve_looks_up_valid_names_witness :
  isNameValid "docs" = true
  /\ "docs" <> EmptyString
  /\ exists rest, "/docs/extra?q=1" = String "/" ("docs" ++ rest) /\ alnum_run rest = 0.
Proof.
  apply (serve_looks_up_valid_names Scenario.table Scenario.linker
           "/docs/extra?q=1" "docs").
  left. reflexivity.
Defined.

(** X9. A name that [Add] accepts and that is not empty can be asked for:
    the request for the name, alone or followed by anything that does not
    start with a letter or a digit, looks up exactly that name. *)
Theorem serve_resolves_valid_names (scan : string -> ScanResult) (l : Linker)
  (n suffix : string) :
  get l <> None ->
  isNameValid n = true -> n <> EmptyString -> alnum_run suffix = 0 ->
  exists answer, serve scan l (String "/" (n ++ suffix)) = QueryRow n :: answer.
Proof.
  intros Hget Hn Hne Hsuffix.
  destruct (get l) as [st | ] eqn:Hst; [clear Hget | now elim Hget].
  rewrite isNameValid_bytes in Hn. apply alnum_run_all in Hn.
  assert (alnum_run (n ++ suffix) = String.length n) as Hrun.
  { clear Hne. revert Hn. induction n as [ | c t IH]; cbn [append alnum_run String.length];
      [intros _; exact Hsuffix | ].
    destruct (alnum c); [intros H; injection H as H; now rewrite IH | discriminate]. }
  assert (FindStringIndex (EscapeString (String "/" (n ++ suffix)))
          = Some (0, 1 + String.length n)) as Hf.
  { change (EscapeString (String "/" (n ++ suffix)))
      with (String "/" (EscapeString (n ++ suffix))).
    rewrite FindStringIndex_slash, alnum_run_escape, Hrun.
    destruct n; [now elim Hne | reflexivity]. }
  destruct (matched_span n suffix 0 _ Hf eq_refl) as [_ [_ [Hkey _]]].
  rewrite (serve_matched scan l _ _ st Hf Hst), Hkey. eauto.
Qed.

Lemma serve_resolves_valid_names_witness :
  exists answer,
    serve Scenario.table Scenario.linker (String "/" ("docs" ++ "?q=1"))
    = QueryRow "docs" :: answer.
Proof.
  apply (serve_resolves_valid_names Scenario.table Scenario.linker "docs" "?q=1");
    [discriminate | reflexivity | discriminate | reflexivity].
Defined.

(** X10. The empty name is accepted by [Add], which inserts a row for it
    when the URL parses and the statement is prepared, and yet no request
    makes [serve] look it up: the row can never be served. *)
Theorem empty_name_is_stored_but_never_served (lib : Library) (drv : Driver)
  (l : Linker) (u : string) (p : URL) :
  db l <> None ->
  Parse lib (TrimSpace lib u) = inl p ->
  prepare drv sqlAdd = None ->
  executed (snd (Add lib drv l EmptyString u))
  = [(sqlAdd, [EmptyString; URLString lib (with_scheme p)])]
  /\ forall scan l' uri, ~ In (QueryRow EmptyString) (serve scan l' uri).
Proof.
  intros Hdb Hparse Hprep. split.
  - unfold Add. destruct (db l); [ | now elim Hdb].
    change (isNameValid EmptyString) with true. cbn [negb].
    rewrite Hparse, Hprep.
    pose proof (AdminFacts.run_prepared_executed drv sqlAdd
                  [EmptyString; URLString lib (with_scheme p)]
                  "unable to execute add statement") as Hrun.
    destruct (run_prepared drv sqlAdd _ _) as [err calls].
    cbn [snd executed] in *. exact Hrun.
  - intros scan l' uri Hin.
    destruct (looked_up_key scan l' uri EmptyString Hin) as [rest [_ [Hkey Hrun]]].
    symmetry in Hkey. now apply take_run_not_empty in Hkey.
Qed.

Lemma empty_name_is_stored_but_never_served_witness :
  executed (snd (Add Scenario.library Scenario.driver Scenario.linker
                     EmptyString "example.com"))
  = [(sqlAdd, [EmptyString; "https://example.com"])]
  /\ forall scan l' uri, ~ In (QueryRow EmptyString) (serve scan l' uri).
Proof.
  apply (empty_name_is_stored_but_never_served Scenario.library Scenario.driver
           Scenario.linker "example.com"
           (Scenario.plainURL EmptyString EmptyString "example.com"));
    [discriminate | reflexivity | reflexivity].
Defined.

Lemma has_byte_app (p : ascii -> bool) (a b : string) :
  has_byte p (a ++ b) = has_byte p a || has_byte p b.
Proof.
  induction a as [ | c a IH]; cbn [append has_byte]; [reflexivity | ].
  now rewrite IH, orb_assoc.
Qed.

(** What the escaper writes holds none of the bytes of markup. *)
Lemma escape_no_markup (s : string) : has_byte markup (EscapeString s) = false.
Proof.
  induction s as [ | c t IH]; [reflexivity | ].
  cbn [EscapeString]. rewrite has_byte_app, IH, orb_false_r.
  unfold escape_byte, markup.
  repeat match goal with
  | |- context [if Ascii.eqb c ?d then _ else _] =>
      destruct (Ascii.eqb_spec c d) as [-> | ?]; [reflexivity | ]
  end.
  cbn [has_byte]. rewrite orb_false_r.
  repeat match goal with
  | H : c <> ?d |- _ => apply Ascii.eqb_neq in H; rewrite H; clear H
  end.
  reflexivity.
Qed.

(** X11. What [serve] sends back takes no markup from the request.  A
    redirect goes, with status 307, to the default URL or to a stored URL
    followed by a part of the escaped URI, which holds none of the bytes
    [<], [>], the quote and the double quote; the body of a status 500
    names a key made of letters and digits. *)
Theorem serve_reflects_no_markup (scan : string -> ScanResult) (l : Linker)
  (uri : string) :
  (forall target code, In (HttpRedirect target code) (serve scan l uri) ->
     code = 307
     /\ (target = url l
         \/ exists x n tail,
              scan x = Scanned n /\ target = n ++ tail
              /\ has_byte markup tail = false))
  /\ (forall body, In (WriteBody body) (serve scan l uri) ->
        exists x, body = "Could not fetch requested URL " ++ quote ++ x ++ quote
                  /\ all_bytes alnum x = true).
Proof.
  destruct (serve_cases scan l uri) as [Hdef | [p1 [Hf [[_ Hpanic] | [st Hst]]]]].
  - rewrite Hdef. split.
    + intros target code [H | []]. injection H as <- <-. now split; [ | left].
    + intros body [H | []]. discriminate H.
  - rewrite Hpanic. split.
    + intros target code Hin.
      repeat (destruct Hin as [H | Hin]; [discriminate H | ]). destruct Hin.
    + intros body Hin.
      repeat (destruct Hin as [H | Hin]; [discriminate H | ]). destruct Hin.
  - rewrite (serve_matched scan l uri p1 st Hf Hst).
    destruct (matched_key uri 0 p1 Hf) as [rest [-> [_ [Hrun [Hkey Htail]]]]].
    rewrite Hkey, Htail. unfold StatusTemporaryRedirect, StatusInternalServerError.
    destruct (scan (take (alnum_run rest) rest)) as [n | err] eqn:Hscan.
    + split.
      * intros target code Hin. destruct Hin as [H | Hin]; [discriminate H | ].
        destruct (String.length n =? 0)%nat; destruct Hin as [H | []];
          injection H as <- <-; (split; [reflexivity | ]); [now left | right].
        exists (take (alnum_run rest) rest), n,
               (EscapeString (drop (alnum_run rest) rest)).
        split; [exact Hscan | split; [reflexivity | apply escape_no_markup]].
      * intros body Hin. destruct Hin as [H | Hin]; [discriminate H | ].
        destruct (String.length n =? 0)%nat; destruct Hin as [H | []]; discriminate H.
    + split.
      * intros target code Hin. destruct Hin as [H | Hin]; [discriminate H | ].
        destruct err;
          repeat (destruct Hin as [H | Hin];
                  [try discriminate H; injection H as <- <-; now split; [ | left] | ]);
          destruct Hin.
      * intros body Hin. destruct Hin as [H | Hin]; [discriminate H | ].
        exists (take (alnum_run rest) rest). split; [ | apply take_run_alnum].
        destruct err;
          repeat (destruct Hin as [H | Hin];
                  [try discriminate H; now injection H as <- | ]);
          destruct Hin.
Qed.

End HandlerFacts.

(** ** The errors of the administrative calls *)

Module ErrorFacts.
Import GoString Names Errors Core Admin ErrorValue.

Lemma newError_wraps (what : string) (cause : error) :
  wraps (newError what (Some cause)) cause what.
Proof.
  unfold wraps. cbn [newError Unwrap Error chain]. repeat split. right.
  destruct cause; now left.
Qed.

Lemma run_prepared_error (drv : Driver) (q : string) (args : list string)
  (what : string) (err : error) :
  fst (run_prepared drv q args what) = Some err ->
  exists cause,
    err = newError what (Some cause)
    /\ (exec drv q args = Some cause
        \/ exec drv q args = None /\ rowsAffected drv q args = Some cause).
Proof.
  unfold run_prepared. destruct (exec drv q args) as [e | ].
  - cbn [fst]. intros H. injection H as <-. exists e. split; [reflexivity | now left].
  - destruct (rowsAffected drv q args) as [e | ]; cbn [fst]; intros H;
      [ | discriminate H].
    injection H as <-. exists e. split; [reflexivity | now right].
Qed.

(** X12. An error that [Add] or [Delete] returns is one of the two
    sentinels, [ErrNotConfigured] and [ErrInvalidName], or else it wraps,
    unchanged, the error that the parse of the URL, the preparation of the
    statement, its execution or the reading of the affected rows returned:
    the message is the context, a colon and the message of the cause, and
    the cause is found by unwrapping. *)
Theorem Add_Delete_errors_keep_the_cause (lib : Library) (drv : Driver)
  (l : Linker) (n u : string) (err : error) :
  fst (Add lib drv l n u) = Some err \/ fst (Delete drv l n) = Some err ->
  err = ErrNotConfigured \/ err = ErrInvalidName
  \/ exists what cause,
       wraps err cause what
       /\ (Parse lib (TrimSpace lib u) = inr cause
           \/ prepare drv sqlAdd = Some cause
           \/ prepare drv sqlDelete = Some cause
           \/ exists q args,
                exec drv q args = Some cause
                \/ exec drv q args = None /\ rowsAffected drv q args = Some cause).
Proof.
  intros [H | H]; [unfold Add in H | unfold Delete in H];
    (destruct (db l); [ | injection H as <-; now left]);
    (destruct (isNameValid n); cbn [negb] in H; [ | injection H as <-; right; now left]);
    right; right.
  - destruct (Parse lib (TrimSpace lib u)) as [p | e] eqn:Hparse.
    + destruct (prepare drv sqlAdd) as [e | ] eqn:Hprep.
      * injection H as <-. exists "unable to prepare add statement", e.
        split; [exact (newError_wraps "unable to prepare add statement" e) | right; now left].
      * destruct (run_prepared drv sqlAdd _ _) as [r calls] eqn:Hrun.
        cbn [fst] in H. subst r.
        pose proof (run_prepared_error drv sqlAdd _ _ err
                      (eq_trans (f_equal fst Hrun) eq_refl)) as [cause [-> Hcause]].
        exists "unable to execute add statement", cause.
        split; [exact (newError_wraps "unable to execute add statement" cause) | do 3 right; eauto].
    + injection H as <-. exists ("invalid URL " ++ quote ++ u ++ quote), e.
      split; [exact (newError_wraps ("invalid URL " ++ quote ++ u ++ quote) e) | now left].
  - destruct (prepare drv sqlDelete) as [e | ] eqn:Hprep.
    + injection H as <-. exists "unable to prepare delete statement", e.
      split; [exact (newError_wraps "unable to prepare delete statement" e) | right; right; now left].
    + destruct (run_prepared drv sqlDelete _ _) as [r calls] eqn:Hrun.
      cbn [fst] in H. subst r.
      pose proof (run_prepared_error drv sqlDelete _ _ err
                    (eq_trans (f_equal fst Hrun) eq_refl)) as [cause [-> Hcause]].
      exists "unable to execute delete statement", cause.
      split; [exact (newError_wraps "unable to execute delete statement" cause) | do 3 right; eauto].
Qed.

Lemma Add_Delete_errors_keep_the_cause_witness :
  exists err,
    fst (Add Scenario.library Scenario.driver Scenario.linker "docs" ":x") = Some err
    /\ (err = ErrNotConfigured \/ err = ErrInvalidName
        \/ exists what cause,
             wraps err cause what
             /\ (Parse Scenario.library (TrimSpace Scenario.library ":x") = inr cause
                 \/ prepare Scenario.driver sqlAdd = Some cause
                 \/ prepare Scenario.driver sqlDelete = Some cause
                 \/ exists q args,
                      exec Scenario.driver q args = Some cause
                      \/ exec Scenario.driver q args = None
                         /\ rowsAffected Scenario.driver q args = Some cause)).
Proof.
  eexists. split; [reflexivity | ].
  apply (Add_Delete_errors_keep_the_cause Scenario.library Scenario.driver
           Scenario.linker "docs" ":x").
  left. reflexivity.
Defined.

End ErrorFacts.

(** ** More on teardown *)

Module TeardownFacts.
Import Errors Core Lifecycle LifecycleFacts.

(** Read the calls of a run off the history it leaves. *)
Ltac emit :=
  first
    [ erewrite emitted_app by (cbn [history]; flatten_history; reflexivity)
    | rewrite (emitted_app _ _ []) by (cbn [history]; now rewrite app_nil_r) ].

(** X13. On a Linker that has not listened, [Close] leaves the server and
    the context alone: it makes no cancel, no stop and no close of the
    server.  With a database and no lookup statement, as after [Add],
    [Delete] or [List], its one call is the close of the database, whose
    failure it returns wrapped; with nothing set it does nothing and
    returns no error. *)
Theorem Close_before_listening (env : Outcomes) (l : Linker) (w : World) :
  ctx l = None ->
  occurs Cancel (emitted w (snd (Close env l w))) = false
  /\ occurs Shutdown (emitted w (snd (Close env l w))) = false
  /\ occurs ServerClose (emitted w (snd (Close env l w))) = false
  /\ done (snd (Close env l w)) = done w
  /\ (get l = None -> db l <> None ->
      emitted w (snd (Close env l w)) = [DBClose]
      /\ fst (Close env l w)
         = match env DBClose (history w) with
           | Some e => Some (newError "unable to close database" (Some e))
           | None => None
           end)
  /\ (get l = None -> db l = None -> Close env l w = (None, w)).
Proof.
  destruct l as [d c g u k ce]. destruct w as [h dn]. cbn [get db ctx].
  intros ->.
  destruct g, d; run_Close env; rewrite ?orb_false_r; emit;
    do 4 (split; [reflexivity | ]);
    (split; intros Hg Hd; try discriminate Hg; try (now elim Hd);
     try discriminate Hd; repeat split).
Qed.

Lemma Close_before_listening_witness :
  occurs Cancel
    (emitted Scenario.listening
       (snd (Close Scenario.succeed Examples.after_add Scenario.listening))) = false
  /\ occurs Shutdown
       (emitted Scenario.listening
          (snd (Close Scenario.succeed Examples.after_add Scenario.listening))) = false
  /\ occurs ServerClose
       (emitted Scenario.listening
          (snd (Close Scenario.succeed Examples.after_add Scenario.listening))) = false
  /\ done (snd (Close Scenario.succeed Examples.after_add Scenario.listening))
     = done Scenario.listening
  /\ (get Examples.after_add = None -> db Examples.after_add <> None ->
      emitted Scenario.listening
        (snd (Close Scenario.succeed Examples.after_add Scenario.listening))
      = [DBClose]
      /\ fst (Close Scenario.succeed Examples.after_add Scenario.listening)
         = match Scenario.succeed DBClose (history Scenario.listening) with
           | Some e => Some (newError "unable to close database" (Some e))
           | None => None
           end)
  /\ (get Examples.after_add = None -> db Examples.after_add = None ->
      Close Scenario.succeed Examples.after_add Scenario.listening
      = (None, Scenario.listening)).
Proof.
  apply (Close_before_listening Scenario.succeed Examples.after_add Scenario.listening).
  reflexivity.
Defined.

(** X14. A [Close] that returns no error has released all that was set:
    the lookup statement and the database were closed, and on a Linker that
    has listened the server was stopped and closed and the context is
    done. *)
Theorem Close_success_releases_everything (env : Outcomes) (l : Linker)
  (w : World) :
  fst (Close env l w) = None ->
  (get l <> None -> occurs StmtClose (emitted w (snd (Close env l w))) = true)
  /\ (db l <> None -> occurs DBClose (emitted w (snd (Close env l w))) = true)
  /\ (ctx l <> None ->
      occurs Shutdown (emitted w (snd (Close env l w))) = true
      /\ occurs ServerClose (emitted w (snd (Close env l w))) = true
      /\ done (snd (Close env l w)) = true).
Proof.
  destruct l as [d c g u k ce]. destruct w as [h dn]. cbn [get db ctx].
  destruct g, d, c, dn; run_Close env; intros H; try discriminate H; emit;
    (split; [intros H'; try reflexivity; now elim H' | ]);
    (split; [intros H'; try reflexivity; now elim H' | ]);
    intros H'; try (now elim H'); repeat split.
Qed.

Lemma Close_success_releases_everything_witness :
  (get Scenario.linker <> None ->
   occurs StmtClose
     (emitted Scenario.listening
        (snd (Close Scenario.succeed Scenario.linker Scenario.listening))) = true)
  /\ (db Scenario.linker <> None ->
      occurs DBClose
        (emitted Scenario.listening
           (snd (Close Scenario.succeed Scenario.linker Scenario.listening))) = true)
  /\ (ctx Scenario.linker <> None ->
      occurs Shutdown
        (emitted Scenario.listening
           (snd (Close Scenario.succeed Scenario.linker Scenario.listening))) = true
      /\ occurs ServerClose
           (emitted Scenario.listening
              (snd (Close Scenario.succeed Scenario.linker Scenario.listening))) = true
      /\ done (snd (Close Scenario.succeed Scenario.linker Scenario.listening)) = true).
Proof.
  apply (Close_success_releases_everything Scenario.succeed Scenario.linker
           Scenario.listening).
  reflexivity.
Defined.

(** X15. An error that [Close] returns is the failure of the last call it
    made: the failure itself when that call is the close of the server,
    and the failure wrapped in every other case; no call follows the
    failure that is reported, and a cancel is never what fails. *)
Theorem Close_reports_its_last_call (env : Outcomes) (l : Linker) (w : World)
  (err : error) :
  fst (Close env l w) = Some err ->
  exists before last cause,
    history (snd (Close env l w)) = (before ++ [last])%list
    /\ env last before = Some cause
    /\ (last = ServerClose /\ err = cause
        \/ last <> ServerClose /\ last <> Cancel
           /\ exists what, err = newError what (Some cause)).
Proof.
  destruct l as [d c g u k ce]. destruct w as [h dn]. cbn [get db ctx].
  destruct g, d, c, dn; run_Close env; intros H; try discriminate H;
    injection H as <-;
    (eexists _, _, _; split; [reflexivity | split; [eassumption | ]]);
    try (left; split; reflexivity);
    right; (split; [discriminate | split; [discriminate | ]]);
    first [ exists "unable to close get statement"; reflexivity
          | exists "unable to close database"; reflexivity
          | exists "unable to shutdown server"; reflexivity ].
Qed.

Lemma Close_reports_its_last_call_witness :
  exists before last cause,
    history (snd (Close Scenario.stmt_fails Scenario.linker Scenario.listening))
    = (before ++ [last])%list
    /\ Scenario.stmt_fails last before = Some cause
    /\ (last = ServerClose
        /\ newError "unable to close get statement"
             (Some (LibraryError "driver: bad connection")) = cause
        \/ last <> ServerClose /\ last <> Cancel
           /\ exists what,
                newError "unable to close get statement"
                  (Some (LibraryError "driver: bad connection"))
                = newError what (Some cause)).
Proof.
  apply (Close_reports_its_last_call Scenario.stmt_fails Scenario.linker
           Scenario.listening).
  reflexivity.
Defined.

End TeardownFacts.

(** ** New and load *)

Module LoaderFacts.
Import GoString Names Errors Core Serve Admin Listing Loader.

(** Split on every answer that a run of [load] on the path argument [s]
    reads. *)
Ltac run_load sys drv lib s :=
  unfold load, config_path;
  destruct (empty s) eqn:?; [destruct (LookupEnv sys _) eqn:? | ];
  cbv beta iota zeta;
  (destruct (Stat sys _) as [[ | ] | ?] eqn:?); cbv beta iota zeta;
  try (destruct (ReadFile sys _) eqn:?; cbv beta iota zeta);
  try (destruct (Unmarshal sys _) eqn:?; cbv beta iota zeta);
  try (destruct (empty (Username _)) eqn:?; cbv beta iota zeta);
  try (destruct (empty (Server _)) eqn:?; cbv beta iota zeta);
  try (destruct (empty (Name _)) eqn:?; cbv beta iota zeta);
  cbn [orb]; unfold connect; cbv beta iota zeta;
  try (destruct (Open sys _) eqn:?; cbv beta iota zeta);
  try (destruct (Ping sys) eqn:?; cbv beta iota zeta);
  try (destruct (prepare drv _) eqn:?; cbv beta iota zeta);
  try (destruct (exec drv _ _) eqn:?; cbv beta iota zeta);
  unfold configure;
  try (destruct (empty (Default _)) eqn:?; cbv beta iota zeta);
  try (destruct (Parse lib _) eqn:?; cbv beta iota zeta);
  cbn [calls failure linker server fst snd].

(** Decide whether a call is among the calls of a run. *)
Ltac among H :=
  rewrite ?in_app_iff in H; cbn [In] in H;
  repeat match type of H with
  | _ \/ _ => destruct H as [H | H]
  | False => destruct H
  end;
  try discriminate H.

(** What a run of [load] that returns no error has read, and where it
    leaves the Linker and the server. *)
Lemma load_success (sys : System) (drv : Driver) (lib : Library) (l : Linker)
  (srv : httpServer) (s : string) :
  failure (load sys drv lib l srv s) = None ->
  exists b c,
    Stat sys (fst (config_path sys s)) = inl false
    /\ ReadFile sys (fst (config_path sys s)) = inl b
    /\ Unmarshal sys b = inl c
    /\ empty (Username (Database c)) = false
    /\ empty (Server (Database c)) = false
    /\ empty (Name (Database c)) = false
    /\ Open sys (dsn (Database c)) = None
    /\ Ping sys = None
    /\ prepare drv defaultDatabase = None
    /\ exec drv defaultDatabase [] = None
    /\ (exists target,
          (if empty (Default c) then target = url l
           else exists u, Parse lib (Default c) = inl u
                          /\ target = URLString lib (with_scheme u))
          /\ url (linker (load sys drv lib l srv s))
             = if empty target then defaultURL else target)
    /\ db (linker (load sys drv lib l srv s)) = Some sqlDB
    /\ get (linker (load sys drv lib l srv s)) = get l
    /\ ctx (linker (load sys drv lib l srv s)) = ctx l
    /\ key (linker (load sys drv lib l srv s)) = Key c
    /\ cert (linker (load sys drv lib l srv s)) = Cert c
    /\ server (load sys drv lib l srv s)
       = {| Addr := Listen c;
            ReadTimeout := (Second * Timeout c)%Z;
            IdleTimeout := (Second * Timeout c)%Z;
            WriteTimeout := (Second * Timeout c)%Z;
            ReadHeaderTimeout := (Second * Timeout c)%Z;
            BaseContext := true;
            routes := (routes srv ++ ["/"])%list |}.
Proof.
  unfold load.
  destruct (config_path sys s) as [path done0]. cbn [fst].
  destruct (Stat sys path) as [[ | ] | e]; try discriminate.
  destruct (ReadFile sys path) as [b | e]; [ | discriminate].
  destruct (Unmarshal sys b) as [c | e] eqn:Hc; [ | discriminate].
  destruct (empty (Username (Database c))) eqn:Hu; [discriminate | ].
  destruct (empty (Server (Database c))) eqn:Hs; [discriminate | ].
  destruct (empty (Name (Database c))) eqn:Hn; [discriminate | ].
  cbn [orb]. unfold connect.
  destruct (Open sys (dsn (Database c))) eqn:Hopen; [discriminate | ].
  destruct (Ping sys) eqn:Hping; [discriminate | ].
  destruct (prepare drv defaultDatabase) eqn:Hprep; [discriminate | ].
  destruct (exec drv defaultDatabase []) eqn:Hexec; [discriminate | ].
  unfold configure.
  destruct (empty (Default c)) eqn:Hd.
  - intros _. exists b, c. repeat (split; [reflexivity || assumption | ]).
    split.
    + exists (url l). rewrite Hd. split; [reflexivity | ].
      cbn [set_db url]. destruct (empty (url l)); reflexivity.
    + repeat split; cbn [set_db url]; destruct (empty (url l)); reflexivity.
  - destruct (Parse lib (Default c)) as [u | e] eqn:Hparse; [ | discriminate].
    intros _. exists b, c. repeat (split; [reflexivity || assumption | ]).
    split.
    + exists (URLString lib (with_scheme u)). rewrite Hd.
      split; [exists u; now split | ].
      cbn [set_url url]. destruct (empty (URLString lib (with_scheme u))); reflexivity.
    + repeat split; cbn [set_url set_db url];
        destruct (empty (URLString lib (with_scheme u))); reflexivity.
Qed.

Lemma New_success (sys : System) (drv : Driver) (lib : Library) (s : string)
  (l : Linker) (srv : httpServer) :
  fst (New sys drv lib s) = inl (l, srv) ->
  failure (load sys drv lib blank newServer s) = None
  /\ l = linker (load sys drv lib blank newServer s)
  /\ srv = server (load sys drv lib blank newServer s).
Proof.
  unfold New. destruct (failure (load sys drv lib blank newServer s));
    cbn [fst]; intros H; [discriminate H | ]. injection H as <- <-. repeat split.
Qed.

Lemma empty_false (s : string) : empty s = false <-> s <> EmptyString.
Proof.
  unfold empty. destruct s; cbn [String.length Nat.eqb]; split; intros H;
    try discriminate; try reflexivity; now elim H.
Qed.



(** X17. [load] opens a database only with a complete configuration: the
    data source name it passes is built from a configuration that was read
    from the file and decoded, and whose user name, server and database
    name are not empty.  A configuration that lacks one of them is refused
    before any call on the database. *)
Theorem load_opens_only_complete_configs (sys : System) (drv : Driver)
  (lib : Library) (l : Linker) (srv : httpServer) (s d : string) :
  In (SqlOpen d) (calls (load sys drv lib l srv s)) ->
  exists b c,
    ReadFile sys (fst (config_path sys s)) = inl b
    /\ Unmarshal sys b = inl c
    /\ d = Username (Database c) ++ ":" ++ Password (Database c) ++ "@"
           ++ Server (Database c) ++ "/" ++ Name (Database c)
    /\ Username (Database c) <> EmptyString
    /\ Server (Database c) <> EmptyString
    /\ Name (Database c) <> EmptyString.
Proof.
  run_load sys drv lib s; intros H; among H;
    injection H as <-; eexists _, _;
    (split; [reflexivity | split; [eassumption | split; [reflexivity | ]]]);
    repeat split; now apply empty_false.
Qed.

Lemma load_opens_only_complete_configs_witness :
  exists b c,
    ReadFile Examples.system (fst (config_path Examples.system EmptyString)) = inl b
    /\ Unmarshal Examples.system b = inl c
    /\ "linker_user:password@tcp(localhost:3306)/linker"
       = Username (Database c) ++ ":" ++ Password (Database c) ++ "@"
         ++ Server (Database c) ++ "/" ++ Name (Database c)
    /\ Username (Database c) <> EmptyString
    /\ Server (Database c) <> EmptyString
    /\ Name (Database c) <> EmptyString.
Proof.
  apply (load_opens_only_complete_configs Examples.system Scenario.driver
           Scenario.library blank newServer EmptyString).
  cbn. tauto.
Defined.

(** X18. [load] touches one file only, and reads it only after [os.Stat]
    has found it and found it not to be a directory.  The file is the path
    given; when none is given, the value of LINKER_CONFIG, even an empty
    one, when the variable is set, and /etc/linker.conf when it is not.
    The environment is not consulted when a path is given. *)
Theorem load_reads_one_regular_file (sys : System) (drv : Driver) (lib : Library)
  (l : Linker) (srv : httpServer) (s : string) :
  (forall p, In (StatFile p) (calls (load sys drv lib l srv s))
             \/ In (ReadFileCall p) (calls (load sys drv lib l srv s)) ->
     p = (if empty s
          then match LookupEnv sys "LINKER_CONFIG" with
               | Some v => v
               | None => "/etc/linker.conf"
               end
          else s))
  /\ (forall p, In (ReadFileCall p) (calls (load sys drv lib l srv s)) ->
        Stat sys p = inl false)
  /\ (s <> EmptyString ->
      forall name, ~ In (EnvLookup name) (calls (load sys drv lib l srv s))).
Proof.
  split; [ | split].
  - intros p. run_load sys drv lib s; intros [H | H]; among H;
      now injection H as <-.
  - intros p. run_load sys drv lib s; intros H; among H;
      injection H as <-; assumption.
  - intros Hs name. apply empty_false in Hs.
    run_load sys drv lib s; try discriminate; intros H; among H.
Qed.

(** The calls of a list that come before the preparation of a statement. *)
Ltac prefix_before L :=
  lazymatch L with
  | SqlPrepare _ :: _ => constr:(@nil syscall)
  | ?x :: ?t => let r := prefix_before t in constr:(x :: r)
  end.

(** X19. The statement that creates the table is closed whenever it was
    prepared: the close follows the execution at once, whether the
    execution fails or not, and [load] prepares no other statement. *)
Theorem load_closes_the_table_statement (sys : System) (drv : Driver)
  (lib : Library) (l : Linker) (srv : httpServer) (s q : string) :
  In (SqlPrepare q) (calls (load sys drv lib l srv s)) ->
  q = defaultDatabase
  /\ (prepare drv defaultDatabase = None ->
      exists before after,
        calls (load sys drv lib l srv s)
        = (before ++ [SqlPrepare defaultDatabase; SqlExec defaultDatabase;
                      SqlStmtClose] ++ after)%list
        /\ ~ In SqlStmtClose before /\ ~ In SqlStmtClose after)
  /\ (prepare drv defaultDatabase <> None ->
      ~ In SqlStmtClose (calls (load sys drv lib l srv s))
      /\ ~ In (SqlExec defaultDatabase) (calls (load sys drv lib l srv s))).
Proof.
  run_load sys drv lib s; intros H; among H; injection H as <-;
    (split; [reflexivity | ]);
    (split;
     [ intros Hp; try discriminate Hp; cbn [app];
       lazymatch goal with
       | |- exists before after, ?L = _ /\ _ =>
           let pre := prefix_before L in exists pre
       end;
       eexists; (split; [cbn [app]; reflexivity | ]);
       split; intros Hin; among Hin
     | intros Hp; try (now elim Hp);
       split; intros Hin; among Hin ]).
Qed.

Lemma load_closes_the_table_statement_witness :
  defaultDatabase = defaultDatabase
  /\ (prepare Scenario.driver defaultDatabase = None ->
      exists before after,
        calls (load Examples.system Scenario.driver Scenario.library blank
                 newServer EmptyString)
        = (before ++ [SqlPrepare defaultDatabase; SqlExec defaultDatabase;
                      SqlStmtClose] ++ after)%list
        /\ ~ In SqlStmtClose before /\ ~ In SqlStmtClose after)
  /\ (prepare Scenario.driver defaultDatabase <> None ->
      ~ In SqlStmtClose
          (calls (load Examples.system Scenario.driver Scenario.library blank
                    newServer EmptyString))
      /\ ~ In (SqlExec defaultDatabase)
            (calls (load Examples.system Scenario.driver Scenario.library blank
                      newServer EmptyString))).
Proof.
  apply (load_closes_the_table_statement Examples.system Scenario.driver
           Scenario.library blank newServer EmptyString defaultDatabase).
  cbn. tauto.
Defined.

(** X20. The default URL of the Linker that [New] returns comes from the
    configuration that was decoded: the built-in https://duckduckgo.com
    when the configuration names none, and otherwise the string of the
    parsed URL, with the scheme https set when it had none, so that the
    URL is absolute.  A default URL that does not parse makes [New] fail. *)
Theorem New_normalises_the_default_url (sys : System) (drv : Driver)
  (lib : Library) (s : string) (l : Linker) (srv : httpServer) :
  fst (New sys drv lib s) = inl (l, srv) ->
  exists b c,
    Unmarshal sys b = inl c
    /\ (Default c = EmptyString -> url l = "https://duckduckgo.com")
    /\ (Default c <> EmptyString ->
        exists u,
          Parse lib (Default c) = inl u
          /\ IsAbs (with_scheme u) = true
          /\ Scheme (with_scheme u) = (if IsAbs u then Scheme u else "https")
          /\ url l = if empty (URLString lib (with_scheme u))
                     then "https://duckduckgo.com"
                     else URLString lib (with_scheme u)).
Proof.
  intros H. apply New_success in H as [Hok [-> _]].
  destruct (load_success sys drv lib blank newServer s Hok)
    as (b & c & _ & _ & Hc & _ & _ & _ & _ & _ & _ & _ & (target & Htarget & Hurl) & _).
  exists b, c. split; [exact Hc | ]. rewrite Hurl. split.
  - intros Hd. rewrite Hd in Htarget. cbn in Htarget. now subst target.
  - intros Hd. apply empty_false in Hd. rewrite Hd in Htarget.
    destruct Htarget as [u [Hparse ->]]. exists u.
    split; [exact Hparse | ].
    split; [apply AdminFacts.with_scheme_absolute | ].
    split; [apply AdminFacts.with_scheme_scheme | reflexivity].
Qed.

Lemma New_normalises_the_default_url_witness :
  exists l srv,
    fst (New Examples.system Scenario.driver Scenario.library EmptyString)
    = inl (l, srv)
    /\ url l = "https://duckduckgo.com"
    /\ exists b c,
         Unmarshal Examples.system b = inl c
         /\ (Default c = EmptyString -> url l = "https://duckduckgo.com")
         /\ (Default c <> EmptyString ->
             exists u,
               Parse Scenario.library (Default c) = inl u
               /\ IsAbs (with_scheme u) = true
               /\ Scheme (with_scheme u) = (if IsAbs u then Scheme u else "https")
               /\ url l = if empty (URLString Scenario.library (with_scheme u))
                          then "https://duckduckgo.com"
                          else URLString Scenario.library (with_scheme u)).
Proof.
  eexists _, _. split; [reflexivity | split; [reflexivity | ]].
  apply (New_normalises_the_default_url Examples.system Scenario.driver
           Scenario.library EmptyString _ Examples.newServer_loaded).
  reflexivity.
Defined.

(** X21. On the Linker that [New] returns the calls behave as on a loaded
    one: [Add] and [Delete] answer a name that [isNameValid] rejects with
    [ErrInvalidName] and no call on the database, [List] never answers
    [ErrNotConfigured], and [serve] sends the request for the root to the
    default URL, which is not empty. *)
Theorem New_then_the_calls (sys : System) (drv : Driver) (lib : Library)
  (s : string) (l : Linker) (srv : httpServer) :
  fst (New sys drv lib s) = inl (l, srv) ->
  (forall lib' drv' n u, isNameValid n = false ->
     Add lib' drv' l n u = (Some ErrInvalidName, [])
     /\ Delete drv' l n = (Some ErrInvalidName, []))
  /\ (forall ldrv, fst (List ldrv l) <> Some ErrNotConfigured)
  /\ (forall scan, serve scan l "/" = [HttpRedirect (url l) 307])
  /\ url l <> EmptyString.
Proof.
  intros H. apply New_success in H as [Hok [-> _]].
  destruct (load_success sys drv lib blank newServer s Hok)
    as (b & c & _ & _ & _ & _ & _ & _ & _ & _ & _ & _ & (target & _ & Hurl)
        & Hdb & _).
  split; [ | split; [ | split]].
  - intros lib' drv' n u Hn. unfold Add, Delete. rewrite Hdb, Hn. now split.
  - intros ldrv. unfold List. rewrite Hdb.
    destruct (list_prepare ldrv); [discriminate | ].
    destruct (list_query ldrv) as [rows | e]; [ | discriminate].
    destruct (List_loop rows) as [out [e | ]]; discriminate.
  - intros scan. reflexivity.
  - rewrite Hurl. destruct (empty target) eqn:Ht; [discriminate | now apply empty_false].
Qed.

Lemma New_then_the_calls_witness :
  exists l srv,
    fst (New Examples.system Scenario.driver Scenario.library EmptyString)
    = inl (l, srv)
    /\ (forall lib' drv' n u, isNameValid n = false ->
          Add lib' drv' l n u = (Some ErrInvalidName, [])
          /\ Delete drv' l n = (Some ErrInvalidName, []))
    /\ (forall ldrv, fst (List ldrv l) <> Some ErrNotConfigured)
    /\ (forall scan, serve scan l "/" = [HttpRedirect (url l) 307])
    /\ url l <> EmptyString.
Proof.
  eexists _, _. split; [reflexivity | ].
  apply (New_then_the_calls Examples.system Scenario.driver Scenario.library
           EmptyString _ Examples.newServer_loaded).
  reflexivity.
Defined.

End LoaderFacts.
